(** * A shallow embedding of the deno-kv polyfill sources

    The development follows the layout of the repository:

    - [Codec]    : the key codec port ([canonicalize_f64], [encode_key]), the
                   [rs-ponyfill] helpers it calls and the [KeyPart] order;
    - [Sqlite]   : the [atomic_write] routine of the SQLite backend that the
                   documentation of the repository quotes and that the polyfill
                   mirrors;
    - [Polyfill] : the TypeScript classes [AtomicOperation], [Kv] and
                   [KvListIterator] together with [kvAtomicWrite].

    Thrown JavaScript exceptions and rejected promises are values of
    [outcome]; Rust's [Result] is [Result]. *)

From Stdlib Require Import ZArith List Bool Lia.
From Stdlib Require Import Strings.String Strings.Byte.
From stdpp Require Import base decidable countable gmap strings list pretty.

Import ListNotations.
Local Open Scope Z_scope.

(** ** Bytes *)

#[global] Instance byte_eq_dec : EqDecision Byte.byte := Byte.byte_eq_dec.

#[global] Program Instance byte_countable : Countable Byte.byte :=
  inj_countable Byte.to_N Byte.of_N _.
Next Obligation. intros b. apply Byte.of_to_N. Qed.

Definition u8_val (b : Byte.byte) : Z := Z.of_N (Byte.to_N b).

(** [Vec<u8>::cmp] and [<[u8]>::cmp]: unsigned bytewise lexicographic
    comparison, a proper prefix being smaller. *)
Fixpoint bytes_cmp (a b : list Byte.byte) : comparison :=
  match a, b with
  | [], [] => Eq
  | [], _ :: _ => Lt
  | _ :: _, [] => Gt
  | x :: a', y :: b' =>
      match Z.compare (u8_val x) (u8_val y) with
      | Eq => bytes_cmp a' b'
      | c => c
      end
  end.

Definition bytes_lt (a b : list Byte.byte) : Prop := bytes_cmp a b = Lt.

(** ** Exceptions of the TypeScript side *)

Inductive js_error : Type :=
| TypeError (msg : string)
| Error (msg : string)
| SyntaxError (msg : string)
| ReferenceError (msg : string).

Inductive outcome (A : Type) : Type :=
| Ret (a : A)
| Throw (e : js_error).
Arguments Ret {A} a.
Arguments Throw {A} e.

#[global] Instance outcome_ret : MRet outcome := fun A a => Ret a.
#[global] Instance outcome_bind : MBind outcome := fun A B k m =>
  match m with
  | Ret a => k a
  | Throw e => Throw e
  end.

Definition throws {A} (m : outcome A) : Prop := exists e, m = Throw e.

Definition is_TypeError (e : js_error) : bool :=
  match e with TypeError _ => true | _ => false end.

Definition throws_TypeError {A} (m : outcome A) : Prop :=
  exists msg, m = Throw (TypeError msg).

(** ** Rust results *)

Inductive AnyError : Type :=
| TypeMismatch (op_name : string)
| StorageFault (msg : string).

Inductive Result (A : Type) : Type :=
| Ok (v : A)
| Err (e : AnyError).
Arguments Ok {A} v.
Arguments Err {A} e.

#[global] Instance Result_ret : MRet Result := fun A a => Ok a.
#[global] Instance Result_bind : MBind Result := fun A B k m =>
  match m with
  | Ok a => k a
  | Err e => Err e
  end.

(** * The key codec ([codec.ts], [rs-ponyfill.ts], [interface.ts]) *)

Module Codec.

(** *** [rs-ponyfill.ts] *)

(** An [f64] is carried as its IEEE-754 binary64 bit pattern, an integer in
    [0, 2^64): bit 63 is the sign, bits 62..52 the exponent, bits 51..0 the
    fraction.  Only classification and comparison with zero are used by the
    sources, and both are functions of the bit pattern. *)
Definition u64 : Type := Z.
Definition f64 : Type := Z.

Definition sign_bit (n : f64) : bool := Z.testbit n 63.
Definition exponent (n : f64) : Z := Z.land (Z.shiftr n 52) 0x7ff.
Definition fraction (n : f64) : Z := Z.land n 0xfffffffffffff.
Definition magnitude (n : f64) : Z := Z.land n 0x7fffffffffffffff.

(** [static from_bits(bits)]: [setBigUint64] keeps the low 64 bits, and
    [getFloat64] reads the same eight octets back. *)
Definition from_bits (bits : u64) : f64 := bits mod 2 ^ 64.

(** [is_nan()] is [isNaN(+this)]. *)
Definition is_nan (n : f64) : bool :=
  (exponent n =? 0x7ff) && negb (fraction n =? 0).

(** The numeric comparison [x < 0] of JavaScript: false when [x] is a NaN,
    false for both zeros, true exactly for the negative non-zero numbers. *)
Definition js_lt_zero (n : f64) : bool :=
  negb (is_nan n) && sign_bit n && negb (magnitude n =? 0).

(** [is_sign_negative()] is [+this < 0]. *)
Definition is_sign_negative (n : f64) : bool := js_lt_zero n.

(** [escape_raw_bytes_into(output, bytes)]: [output.length = 0] empties the
    vector, [output.push(...bytes)] then appends the octets as they are. *)
Definition escape_raw_bytes_into (output : list Byte.byte)
    (bytes : list Byte.byte) : list Byte.byte :=
  let output : list Byte.byte := [] in
  output ++ bytes.

(** [bigint.encode_into(output, n)] has an empty body. *)
Definition bigint_encode_into (output : list Byte.byte) (n : Z)
    : list Byte.byte :=
  output.

(** *** [codec.ts] *)

Definition BYTES : Byte.byte := Byte.x01.
Definition STRING : Byte.byte := Byte.x02.
Definition NEGINTSTART : Byte.byte := Byte.x0b.
Definition INTZERO : Byte.byte := Byte.x14.
Definition POSINTEND : Byte.byte := Byte.x1d.
Definition DOUBLE : Byte.byte := Byte.x21.
Definition FALSE : Byte.byte := Byte.x26.
Definition TRUE : Byte.byte := Byte.x27.
Definition ESCAPE : Byte.byte := Byte.xff.

Definition CANONICAL_NAN_POS : u64 := 0x7ff8000000000000.
Definition CANONICAL_NAN_NEG : u64 := 0xfff8000000000000.

Definition canonicalize_f64 (n : f64) : f64 :=
  if is_nan n then
    if is_sign_negative n then from_bits CANONICAL_NAN_NEG
    else from_bits CANONICAL_NAN_POS
  else n.

(** *** [interface.ts] *)

Inductive KeyPart : Type :=
| KeyPart_Bytes (b : list Byte.byte)
| KeyPart_String (s : string)
| KeyPart_Int (i : Z)
| KeyPart_Float (f : f64)
| KeyPart_False
| KeyPart_True.

Definition Key : Type := list KeyPart.

Definition tag_ordering (self : KeyPart) : Z :=
  match self with
  | KeyPart_Bytes _ => 0
  | KeyPart_String _ => 1
  | KeyPart_Int _ => 2
  | KeyPart_Float _ => 3
  | KeyPart_False => 4
  | KeyPart_True => 5
  end.

Definition as_bytes (s : string) : list Byte.byte :=
  String.list_byte_of_string s.

(** [f64::total_cmp] of the Rust standard library: the bits are read as an
    [i64], the low 63 bits of a negative pattern are flipped, and the results
    are compared as signed integers. *)
Definition as_i64 (bits : Z) : Z :=
  if bits <? 2 ^ 63 then bits else bits - 2 ^ 64.

Definition total_cmp_key (n : f64) : Z :=
  let left := as_i64 n in
  if left <? 0 then Z.lxor left 0x7fffffffffffffff else left.

Definition total_cmp (a b : f64) : comparison :=
  Z.compare (total_cmp_key a) (total_cmp_key b).

(** [impl Ord for KeyPart]. *)
Definition cmp (self other : KeyPart) : comparison :=
  match self, other with
  | KeyPart_Bytes b1, KeyPart_Bytes b2 => bytes_cmp b1 b2
  | KeyPart_String s1, KeyPart_String s2 =>
      bytes_cmp (as_bytes s1) (as_bytes s2)
  | KeyPart_Int i1, KeyPart_Int i2 => Z.compare i1 i2
  | KeyPart_Float f1, KeyPart_Float f2 =>
      total_cmp (canonicalize_f64 f1) (canonicalize_f64 f2)
  | _, _ => Z.compare (tag_ordering self) (tag_ordering other)
  end.

(** [Key] is a vector of parts; vectors compare lexicographically. *)
Fixpoint Key_cmp (k1 k2 : Key) : comparison :=
  match k1, k2 with
  | [], [] => Eq
  | [], _ :: _ => Lt
  | _ :: _, [] => Gt
  | p1 :: k1', p2 :: k2' =>
      match cmp p1 p2 with
      | Eq => Key_cmp k1' k2'
      | c => c
      end
  end.

Definition Key_lt (k1 k2 : Key) : Prop := Key_cmp k1 k2 = Lt.

(** *** [encode_key]

    [match] is the one exported by [rs-ponyfill.ts],
    [export const match: any = () => {}]: the call evaluates its two
    arguments and does nothing, so no arm is run and [output] is never
    written.  The arms are kept below as the source writes them, as
    functions of the payload and of [output]. *)
Inductive MatchArm : Type :=
| Arm_String (body : string -> list Byte.byte -> list Byte.byte)
| Arm_Int (body : Z -> list Byte.byte -> list Byte.byte).

Definition ponyfill_match (value : string) (arms : list MatchArm)
    (output : list Byte.byte) : list Byte.byte :=
  output.

(** [for (const part in key[0])]: [part] ranges over the enumerable
    property names of the first element of [key], the indices of a byte
    array or of a string; a number, a bigint and a boolean have none, and
    so has the [undefined] that [key[0]] is for the empty key. *)
Definition index_names (n : nat) : list string :=
  map (fun i : nat => pretty i) (seq 0 n).

Definition for_in (value : option KeyPart) : list string :=
  match value with
  | Some (KeyPart_Bytes b) => index_names (length b)
  | Some (KeyPart_String s) => index_names (String.length s)
  | _ => []
  end.

(** The body of the loop. *)
Definition encode_part (output : list Byte.byte) (part : string)
    : list Byte.byte :=
  ponyfill_match part
    [ Arm_String (fun key output =>
        let output := output ++ [STRING] in
        let output := escape_raw_bytes_into output (as_bytes key) in
        output ++ [Byte.x00]);
      Arm_Int (fun key output => bigint_encode_into output key) ]
    output.

Definition encode_key (key : Key) : Result (list Byte.byte) :=
  let output : list Byte.byte := [] in
  Ok (fold_left encode_part (for_in (head key)) output).

(** The octets carried by the result of [encode_key]. *)
Definition encoded (key : Key) : list Byte.byte :=
  match encode_key key with
  | Ok output => output
  | Err _ => []
  end.

(** What the data model asks of [canonicalize_f64], with the sign read off
    the sign bit as Rust's [is_sign_negative] does. *)
Definition canonicalize_f64_by_sign_bit (n : f64) : f64 :=
  if is_nan n then
    if sign_bit n then CANONICAL_NAN_NEG else CANONICAL_NAN_POS
  else n.

(** [impl PartialEq for KeyPart]: [self.cmp(other) == Ordering.Equal]. *)
Definition KeyPart_eq (self other : KeyPart) : bool :=
  match cmp self other with
  | Eq => true
  | _ => false
  end.

(** [impl PartialOrd for KeyPart]. *)
Definition partial_cmp (self other : KeyPart) : option comparison :=
  Some (cmp self other).

End Codec.

(** * The SQLite backend quoted by the documentation ([atomic_write]) *)

Module Sqlite.

(** *** [interface.ts]: the request types *)

(** [type Versionstamp = [u8; 10]]. *)
Definition Versionstamp : Type := list Byte.byte.

Inductive Value : Type :=
| Value_V8 (buf : list Byte.byte)
| Value_Bytes (buf : list Byte.byte)
| Value_U64 (n : Z).

Record KvCheck : Type := {
  KvCheck_key : list Byte.byte;
  KvCheck_versionstamp : option Versionstamp
}.

Inductive MutationKind : Type :=
| MutationKind_Set (value : Value)
| MutationKind_Delete
| MutationKind_Sum (operand : Value)
| MutationKind_Min (operand : Value)
| MutationKind_Max (operand : Value).

Record KvMutation : Type := {
  KvMutation_key : list Byte.byte;
  KvMutation_kind : MutationKind
}.

Record Enqueue : Type := {
  payload : list Byte.byte;
  deadline_ms : Z;
  keys_if_undelivered : list (list Byte.byte);
  backoff_schedule : option (list Z)
}.

Record AtomicWrite : Type := {
  checks : list KvCheck;
  mutations : list KvMutation;
  enqueues : list Enqueue
}.

Record CommitResult : Type := {
  versionstamp : Versionstamp
}.

(** [MutationKind::value]. *)
Definition MutationKind_value (self : MutationKind) : option Value :=
  match self with
  | MutationKind_Set value => Some value
  | MutationKind_Sum value => Some value
  | MutationKind_Min value => Some value
  | MutationKind_Max value => Some value
  | MutationKind_Delete => None
  end.

(** *** The tables of the first migration

    [kv (k blob primary key, v, v_encoding, version)] is a finite map from
    [k] to the rest of the row, and [data_version] holds the single row
    [k = 0].  The column pair [(v, v_encoding)] is what [encode_value] makes
    of a [Value]; [encode_value] is not among the sources, so a row keeps
    the [Value] itself. *)
Record Row : Type := {
  Row_v : Value;
  Row_version : Z
}.

Record Db : Type := {
  kv : gmap (list Byte.byte) Row;
  data_version : Z
}.

(** [STATEMENT_KV_POINT_GET_VERSION_ONLY], with [.optional()]. *)
Definition point_get_version (tx : Db) (k : list Byte.byte) : option Z :=
  Row_version <$> kv tx !! k.

(** [STATEMENT_KV_POINT_GET_VALUE_ONLY], with [.optional()]. *)
Definition point_get_value (tx : Db) (k : list Byte.byte) : option Value :=
  Row_v <$> kv tx !! k.

(** [STATEMENT_INC_AND_GET_DATA_VERSION]: [version = version + 1 where k = 0
    returning version].  The counter starts at 0 and is taken to stay within
    the 64-bit integers of SQLite. *)
Definition inc_and_get_data_version (tx : Db) : Z * Db :=
  let version := data_version tx + 1 in
  (version, {| kv := kv tx; data_version := version |}).

(** [STATEMENT_KV_POINT_SET]: insert, or update on conflict; one row
    changes. *)
Definition point_set (tx : Db) (k : list Byte.byte) (v : Value) (version : Z)
    : Db :=
  {| kv := <[k := {| Row_v := v; Row_version := version |}]> (kv tx);
     data_version := data_version tx |}.

(** [STATEMENT_KV_POINT_DELETE]: zero or one row changes. *)
Definition point_delete (tx : Db) (k : list Byte.byte) : Db :=
  {| kv := delete k (kv tx); data_version := data_version tx |}.

(** [u64::wrapping_add], [u64::min], [u64::max]. *)
Definition wrapping_add (a b : Z) : Z := (a + b) mod 2 ^ 64.
Definition u64_min (a b : Z) : Z := Z.min a b.
Definition u64_max (a b : Z) : Z := Z.max a b.

(** Modelled from the spec: [mutate_le64], the helper behind the numeric
    mutations, is called by [atomic_write] but is not among the sources.
    The operand must be the numeric representation; the existing value, if
    any, must be numeric too, otherwise the mutation is a [TypeMismatch];
    when the key is absent the operand becomes the new value; the result is
    written back under the new version. *)
Definition mutate_le64 (tx : Db) (key : list Byte.byte) (op_name : string)
    (operand : Value) (new_version : Z) (mutate : Z -> Z -> Z) : Result Db :=
  match operand with
  | Value_U64 operand =>
      match point_get_value tx key with
      | None => Ok (point_set tx key (Value_U64 operand) new_version)
      | Some (Value_U64 old_value) =>
          Ok (point_set tx key (Value_U64 (mutate old_value operand))
                new_version)
      | Some _ => Err (TypeMismatch op_name)
      end
  | _ => Err (TypeMismatch op_name)
  end.

Section AtomicWrite.

(** [version_to_versionstamp] is not among the sources either; nothing below
    depends on how the ten octets are laid out. *)
Variable version_to_versionstamp : Z -> Versionstamp.

(** The [for check in write.checks] loop: [false] is the early
    [return Ok(None)]. *)
Fixpoint checks_hold (tx : Db) (checks : list KvCheck) : bool :=
  match checks with
  | [] => true
  | check :: checks =>
      let real_versionstamp :=
        version_to_versionstamp <$> point_get_version tx (KvCheck_key check) in
      if bool_decide (real_versionstamp ≠ KvCheck_versionstamp check)
      then false
      else checks_hold tx checks
  end.

(** A check passes when the versionstamp it expects is the one the table
    has for its key, [None] standing for an absent key. *)
Definition check_passes (db : Db) (check : KvCheck) : Prop :=
  version_to_versionstamp <$> point_get_version db (KvCheck_key check)
  = KvCheck_versionstamp check.

(** One turn of the [for mutation in write.mutations] loop. *)
Definition apply_mutation (version : Z) (tx : Db) (mutation : KvMutation)
    : Result Db :=
  match KvMutation_kind mutation with
  | MutationKind_Set value =>
      Ok (point_set tx (KvMutation_key mutation) value version)
  | MutationKind_Delete =>
      Ok (point_delete tx (KvMutation_key mutation))
  | MutationKind_Sum operand =>
      mutate_le64 tx (KvMutation_key mutation) "sum" operand version
        (fun a b => wrapping_add a b)
  | MutationKind_Min operand =>
      mutate_le64 tx (KvMutation_key mutation) "min" operand version
        (fun a b => u64_min a b)
  | MutationKind_Max operand =>
      mutate_le64 tx (KvMutation_key mutation) "max" operand version
        (fun a b => u64_max a b)
  end.

Fixpoint apply_mutations (version : Z) (tx : Db) (mutations : list KvMutation)
    : Result Db :=
  match mutations with
  | [] => Ok tx
  | mutation :: mutations =>
      tx ← apply_mutation version tx mutation;
      apply_mutations version tx mutations
  end.

(** [atomic_write].  The second component is the database after the call:
    the transaction's state when [tx.commit()] is reached, the state at entry
    when the transaction is dropped by an early return. *)
Definition atomic_write (db : Db) (write : AtomicWrite)
    : Result (option CommitResult) * Db :=
  let tx := db in
  if negb (checks_hold tx (checks write)) then (Ok None, db)
  else
    let '(version, tx) := inc_and_get_data_version tx in
    match apply_mutations version tx (mutations write) with
    | Err e => (Err e, db)
    | Ok tx =>
        let new_vesionstamp := version_to_versionstamp version in
        (Ok (Some {| versionstamp := new_vesionstamp |}), tx)
    end.

End AtomicWrite.

(** *** Typing of a mutation list

    Whether a row holds the numeric representation is all that decides a
    [TypeMismatch]; [well_typed] runs a mutation list over that abstraction
    of the table. *)
Definition is_u64 (v : Value) : bool :=
  match v with
  | Value_U64 _ => true
  | _ => false
  end.

Definition numeric_target (kinds : gmap (list Byte.byte) bool)
    (key : list Byte.byte) (operand : Value) : bool :=
  is_u64 operand &&
  match kinds !! key with
  | Some false => false
  | _ => true
  end.

Fixpoint well_typed (kinds : gmap (list Byte.byte) bool)
    (mutations : list KvMutation) : bool :=
  match mutations with
  | [] => true
  | mutation :: mutations =>
      let key := KvMutation_key mutation in
      match KvMutation_kind mutation with
      | MutationKind_Set value =>
          well_typed (<[key := is_u64 value]> kinds) mutations
      | MutationKind_Delete => well_typed (delete key kinds) mutations
      | MutationKind_Sum operand
      | MutationKind_Min operand
      | MutationKind_Max operand =>
          numeric_target kinds key operand &&
          well_typed (<[key := true]> kinds) mutations
      end
  end.

Definition kinds_of (tx : Db) : gmap (list Byte.byte) bool :=
  (fun row => is_u64 (Row_v row)) <$> kv tx.

Definition mutated_keys (mutations : list KvMutation)
    : list (list Byte.byte) :=
  map KvMutation_key mutations.

(** The row of [k], when there is one, carries [version]. *)
Definition stamped (version : Z) (tx : Db) (k : list Byte.byte) : Prop :=
  forall row, kv tx !! k = Some row -> Row_version row = version.

(** A write with no check and the single mutation [Sum(U64(operand))]. *)
Definition sum_write (key : list Byte.byte) (operand : Z) : AtomicWrite :=
  {| checks := [];
     mutations := [ {| KvMutation_key := key;
                       KvMutation_kind := MutationKind_Sum (Value_U64 operand) |} ];
     enqueues := [] |}.

Definition byte_of_Z (z : Z) : Byte.byte :=
  default Byte.x00 (Byte.of_N (Z.to_N (z mod 256))).

(** Modelled from the spec: [version_to_versionstamp] is not among the
    sources; the versionstamp is a fixed-width identifier derived
    deterministically from the counter.  Here: the eight octets of the
    counter, most significant first, and two zero octets. *)
Definition version_to_versionstamp_be (version : Z) : Versionstamp :=
  map (fun shift => byte_of_Z (Z.shiftr version shift))
      [56; 48; 40; 32; 24; 16; 8; 0]
  ++ [Byte.x00; Byte.x00].

(** A write with no check whose second mutation is a sum on the opaque
    value that its first mutation stores. *)
Definition mismatch_write : AtomicWrite :=
  {| checks := [];
     mutations :=
       [ {| KvMutation_key := [Byte.x6b];
            KvMutation_kind := MutationKind_Set (Value_V8 [Byte.x01]) |};
         {| KvMutation_key := [Byte.x6b];
            KvMutation_kind := MutationKind_Sum (Value_U64 1) |} ];
     enqueues := [] |}.

(** A write that expects the key ["a"] to be absent, sets it, and adds 5 to
    the key ["n"]. *)
Definition sample_write : AtomicWrite :=
  {| checks :=
       [ {| KvCheck_key := [Byte.x61]; KvCheck_versionstamp := None |} ];
     mutations :=
       [ {| KvMutation_key := [Byte.x61];
            KvMutation_kind := MutationKind_Set (Value_Bytes [Byte.x01]) |};
         {| KvMutation_key := [Byte.x6e];
            KvMutation_kind := MutationKind_Sum (Value_U64 5) |} ];
     enqueues := [] |}.

(** The same write, expecting a versionstamp that no row has. *)
Definition stale_write : AtomicWrite :=
  {| checks :=
       [ {| KvCheck_key := [Byte.x61];
            KvCheck_versionstamp := Some (version_to_versionstamp_be 7) |} ];
     mutations := mutations sample_write;
     enqueues := [] |}.

(** The two writes of the optimistic-lock scenario: [set_a_1] sets the key
    ["a"] unconditionally, [set_a_2_if_absent] sets it provided it is
    absent. *)
Definition set_a_1 : AtomicWrite :=
  {| checks := [];
     mutations :=
       [ {| KvMutation_key := [Byte.x61];
            KvMutation_kind := MutationKind_Set (Value_U64 1) |} ];
     enqueues := [] |}.

Definition set_a_2_if_absent : AtomicWrite :=
  {| checks :=
       [ {| KvCheck_key := [Byte.x61]; KvCheck_versionstamp := None |} ];
     mutations :=
       [ {| KvMutation_key := [Byte.x61];
            KvMutation_kind := MutationKind_Set (Value_U64 2) |} ];
     enqueues := [] |}.

(** An empty table whose counter is at its initial value. *)
Definition empty_db : Db := {| kv := ∅; data_version := 0 |}.

(** Every row was written under a version the counter has reached. *)
Definition versions_bounded (db : Db) : Prop :=
  forall k row, kv db !! k = Some row -> Row_version row <= data_version db.

(** A [u64] payload is within the 64-bit unsigned range. *)
Definition value_in_range (v : Value) : Prop :=
  match v with
  | Value_U64 n => 0 <= n < 2 ^ 64
  | _ => True
  end.

Definition rows_in_range (db : Db) : Prop :=
  forall k row, kv db !! k = Some row -> value_in_range (Row_v row).

Definition mutations_in_range (mutations : list KvMutation) : Prop :=
  Forall (fun mutation =>
            from_option value_in_range True
              (MutationKind_value (KvMutation_kind mutation)))
         mutations.

(** A write with no check and a single mutation. *)
Definition single_write (key : list Byte.byte) (kind : MutationKind)
    : AtomicWrite :=
  {| checks := [];
     mutations := [ {| KvMutation_key := key; KvMutation_kind := kind |} ];
     enqueues := [] |}.

(** A table with the numeric row [7] under ["n"], written at version 3. *)
Definition one_row_db : Db :=
  {| kv := {[ [Byte.x6e] := {| Row_v := Value_U64 7; Row_version := 3 |} ]};
     data_version := 3 |}.

(** Two writes with the same two checks in opposite orders; the second one
    also carries an enqueue. *)
Definition absent_a : KvCheck :=
  {| KvCheck_key := [Byte.x61]; KvCheck_versionstamp := None |}.

Definition n_at_3 : KvCheck :=
  {| KvCheck_key := [Byte.x6e];
     KvCheck_versionstamp := Some (version_to_versionstamp_be 3) |}.

Definition checked_write : AtomicWrite :=
  {| checks := [absent_a; n_at_3];
     mutations := mutations sample_write;
     enqueues := [] |}.

Definition checked_write_swapped : AtomicWrite :=
  {| checks := [n_at_3; absent_a];
     mutations := mutations sample_write;
     enqueues :=
       [ {| payload := [Byte.x01]; deadline_ms := 0;
            keys_if_undelivered := []; backoff_schedule := None |} ] |}.

(** A write that sets ["a"] twice, deletes ["n"], and sets ["b"]. *)
Definition overwrite_write : AtomicWrite :=
  {| checks := [];
     mutations :=
       [ {| KvMutation_key := [Byte.x61];
            KvMutation_kind := MutationKind_Set (Value_U64 1) |};
         {| KvMutation_key := [Byte.x61];
            KvMutation_kind := MutationKind_Set (Value_U64 2) |};
         {| KvMutation_key := [Byte.x6e];
            KvMutation_kind := MutationKind_Delete |};
         {| KvMutation_key := [Byte.x62];
            KvMutation_kind := MutationKind_Set (Value_Bytes []) |} ];
     enqueues := [] |}.

End Sqlite.

(** * The TypeScript polyfill *)

Module Polyfill.

(** *** Keys and values *)

(** [KvKeyPart = Uint8Array | string | number | bigint | boolean]; a
    [number] is carried as its binary64 bit pattern. *)
Inductive KvKeyPart : Type :=
| KvKeyPart_Uint8Array (b : list Byte.byte)
| KvKeyPart_string (s : string)
| KvKeyPart_number (bits : Z)
| KvKeyPart_bigint (n : Z)
| KvKeyPart_boolean (b : bool).

Definition KvKey : Type := list KvKeyPart.

(** The JavaScript values that can reach [serializeValue].  [JsObject ctor id]
    is any other object, [ctor] being the [name] of its [constructor], or
    [None] when it has no [constructor] property. *)
Inductive JsValue : Type :=
| JsUndefined
| JsNull
| JsBoolean (b : bool)
| JsString (s : string)
| JsBigint (n : Z)
| JsUint8Array (b : list Byte.byte)
| JsKvU64 (value : Z)
| JsObject (ctor : option string) (id : N).

(** ToBoolean. *)
Definition truthy (v : JsValue) : bool :=
  match v with
  | JsUndefined | JsNull => false
  | JsBoolean b => b
  | JsString s => negb (String.eqb s EmptyString)
  | JsBigint n => negb (n =? 0)
  | _ => true
  end.

(** [value?.constructor.name]: the chain short-circuits to [undefined] on
    [undefined] and [null]; reading [name] of a missing constructor throws. *)
Definition constructor_name (value : JsValue) : outcome (option string) :=
  match value with
  | JsUndefined | JsNull => Ret None
  | JsBoolean _ => Ret (Some "Boolean")
  | JsString _ => Ret (Some "String")
  | JsBigint _ => Ret (Some "BigInt")
  | JsUint8Array _ => Ret (Some "Uint8Array")
  | JsKvU64 _ => Ret (Some "KvU64")
  | JsObject (Some name) _ => Ret (Some name)
  | JsObject None _ =>
      Throw (TypeError "Cannot read properties of undefined (reading 'name')")
  end.

(** [(value as KvU64).value]. *)
Definition KvU64_value (value : JsValue) : JsValue :=
  match value with
  | JsKvU64 n => JsBigint n
  | _ => JsUndefined
  end.

(** [RawValue]; the casts of [serializeValue] are unchecked, so the payloads
    of the [bytes] and [u64] kinds are whatever value was cast. *)
Inductive RawValue : Type :=
| RawValue_v8 (value : list Byte.byte)
| RawValue_bytes (value : JsValue)
| RawValue_u64 (value : JsValue).

Record AtomicCheck : Type := {
  AtomicCheck_key : KvKey;
  AtomicCheck_versionstamp : option string
}.

(** [KvMutation]; [KvMutation_value = None] is a mutation object without a
    [value] property. *)
Record KvMutation : Type := {
  KvMutation_key : KvKey;
  KvMutation_type : string;
  KvMutation_value : option JsValue
}.

Inductive KvCommit : Type :=
| KvCommitResult (versionstamp : string)   (* { ok: true, versionstamp } *)
| KvCommitError.                           (* { ok: false } *)

(** *** The database handle

    The handle of the [sqlite] package, seen through the point query that
    [Kv.get] runs: [db.get] resolves to the row, or to [undefined] when no
    row matches. *)
Record SqlRow : Type := {
  SqlRow_value : option string;
  SqlRow_versionstamp : option string
}.

Record Database : Type := {
  Database_get : KvKey -> option SqlRow
}.

Record KvEntryMaybe : Type := {
  KvEntryMaybe_key : KvKey;
  KvEntryMaybe_value : JsValue;
  KvEntryMaybe_versionstamp : option string
}.

Record KvEntry : Type := {
  KvEntry_key : KvKey;
  KvEntry_value : JsValue;
  KvEntry_versionstamp : string
}.

Inductive KvConsistencyLevel : Type := strong | eventual.

(** [KvListSelector]: each of the three properties is present or not. *)
Record KvListSelector : Type := {
  selector_prefix : option KvKey;
  selector_start : option KvKey;
  selector_end : option KvKey
}.

(** The third component of a queued mutation, [RawValue | null] by its type:
    a raw value, the [null] that [delete] pushes, or the [undefined] of the
    variable that [mutate] declares and does not assign on its delete
    path. *)
Inductive Queued : Type :=
| Queued_null
| Queued_undefined
| Queued_raw (value : RawValue).

(** *** [kvAtomicWrite.ts] *)

(** The body is [return null]; the handle is not used.  [checks] and
    [mutations] are [None] when the caller passes [undefined]. *)
Definition kvAtomicWrite (db : Database)
    (checks : option (list AtomicCheck))
    (mutations : option (list (KvKey * string * Queued)))
    : outcome (option string) * Database :=
  (Ret None, db).

(** *** [AtomicOperation.ts] *)

(** The private fields; a field that was never assigned is [None]. *)
Record AtomicOperation : Type := {
  AtomicOperation_db : Database;
  AtomicOperation_checks : option (list AtomicCheck);
  AtomicOperation_mutations :
    option (list (KvKey * string * Queued))
}.

(** [constructor(db) { this.#db = db; }] *)
Definition new_AtomicOperation (db : Database) : AtomicOperation :=
  {| AtomicOperation_db := db;
     AtomicOperation_checks := None;
     AtomicOperation_mutations := None |}.

Definition with_checks (self : AtomicOperation) (l : list AtomicCheck)
    : AtomicOperation :=
  {| AtomicOperation_db := AtomicOperation_db self;
     AtomicOperation_checks := Some l;
     AtomicOperation_mutations := AtomicOperation_mutations self |}.

Definition with_mutations (self : AtomicOperation)
    (l : list (KvKey * string * Queued)) : AtomicOperation :=
  {| AtomicOperation_db := AtomicOperation_db self;
     AtomicOperation_checks := AtomicOperation_checks self;
     AtomicOperation_mutations := Some l |}.

Definition undefined_push : js_error :=
  TypeError "Cannot read properties of undefined (reading 'push')".

(** [field.push(...)]: the callee [field.push] is evaluated before the
    arguments, and throws when [field] is [undefined]. *)
Definition push {A : Type} (field : option (list A))
    (items : outcome (list A)) : outcome (list A) :=
  match field with
  | None => Throw undefined_push
  | Some l => items ← items; Ret (l ++ items)
  end.

Section WithV8.

(** [serialize] of [node:v8]. *)
Variable serialize : JsValue -> outcome (list Byte.byte).

Definition serializeValue (value : JsValue) : outcome RawValue :=
  name ← constructor_name value;
  match name with
  | Some "Uint8Array"%string => Ret (RawValue_bytes value)
  | Some "KvU64"%string => Ret (RawValue_u64 (KvU64_value value))
  | _ => v ← serialize value; Ret (RawValue_v8 v)
  end.

Definition AtomicOperation_check (self : AtomicOperation)
    (checks : list AtomicCheck) : outcome AtomicOperation :=
  l ← push (AtomicOperation_checks self) (Ret checks);
  Ret (with_checks self l).

Definition AtomicOperation_commit (self : AtomicOperation)
    : outcome KvCommit * Database :=
  let '(versionstamp, db) :=
    kvAtomicWrite (AtomicOperation_db self) (AtomicOperation_checks self)
      (AtomicOperation_mutations self) in
  (versionstamp ← versionstamp;
   match versionstamp with
   | Some versionstamp => Ret (KvCommitResult versionstamp)
   | None => Ret KvCommitError
   end, db).

Definition AtomicOperation_delete (self : AtomicOperation) (key : KvKey)
    : outcome AtomicOperation :=
  l ← push (AtomicOperation_mutations self)
        (Ret [(key, "delete"%string, Queued_null)]);
  Ret (with_mutations self l).

Definition push_numeric (self : AtomicOperation) (key : KvKey)
    (type : string) (n : Z) : outcome AtomicOperation :=
  l ← push (AtomicOperation_mutations self)
        (v ← serializeValue (JsKvU64 n); Ret [(key, type, Queued_raw v)]);
  Ret (with_mutations self l).

Definition AtomicOperation_max (self : AtomicOperation) (key : KvKey) (n : Z)
    : outcome AtomicOperation :=
  push_numeric self key "max" n.

Definition AtomicOperation_min (self : AtomicOperation) (key : KvKey) (n : Z)
    : outcome AtomicOperation :=
  push_numeric self key "min" n.

Definition AtomicOperation_sum (self : AtomicOperation) (key : KvKey) (n : Z)
    : outcome AtomicOperation :=
  push_numeric self key "sum" n.

Definition AtomicOperation_set (self : AtomicOperation) (key : KvKey)
    (value : JsValue) : outcome AtomicOperation :=
  l ← push (AtomicOperation_mutations self)
        (v ← serializeValue value; Ret [(key, "set"%string, Queued_raw v)]);
  Ret (with_mutations self l).

(** The [switch (mutation.type)] of [mutate]: the [type] and the [value] that
    will be pushed.  [let value: RawValue | null;] is assigned on the
    [set], [sum], [min] and [max] paths only; on the [delete] path it is
    still [undefined] when the tuple is pushed. *)
Definition mutation_entry (mutation : KvMutation)
    : outcome (string * Queued) :=
  let type := KvMutation_type mutation in
  if String.eqb type "delete" then
    if from_option truthy false (KvMutation_value mutation)
    then Throw (TypeError "invalid mutation 'delete' with value")
    else Ret ("delete"%string, Queued_undefined)
  else if String.eqb type "set" || String.eqb type "sum"
          || String.eqb type "min" || String.eqb type "max" then
    match KvMutation_value mutation with
    | None =>
        Throw (TypeError ("invalid mutation '" ++ type ++ "' without value"))
    | Some value => v ← serializeValue value; Ret (type, Queued_raw v)
    end
  else Throw (TypeError "Invalid mutation type").

Fixpoint AtomicOperation_mutate (self : AtomicOperation)
    (mutations : list KvMutation) : outcome AtomicOperation :=
  match mutations with
  | [] => Ret self
  | mutation :: mutations =>
      '(type, value) ← mutation_entry mutation;
      l ← push (AtomicOperation_mutations self)
            (Ret [(KvMutation_key mutation, type, value)]);
      AtomicOperation_mutate (with_mutations self l) mutations
  end.

(** *** [Kv.ts] *)

Record Kv : Type := { Kv_db : Database }.

Definition Kv_atomic (self : Kv) : AtomicOperation :=
  new_AtomicOperation (Kv_db self).

(** [JSON.parse]. *)
Variable JSON_parse : string -> outcome JsValue.

Definition undefined_destructure : js_error :=
  TypeError "Cannot destructure property 'value' of undefined".

Definition Kv_get (self : Kv) (key : KvKey) : outcome KvEntryMaybe :=
  match Database_get (Kv_db self) key with
  | None => Throw undefined_destructure
  | Some row =>
      value ← match SqlRow_value row with
              | Some value =>
                  if negb (String.eqb value EmptyString) then JSON_parse value
                  else Ret JsNull
              | None => Ret JsNull
              end;
      Ret {| KvEntryMaybe_key := key;
             KvEntryMaybe_value := value;
             KvEntryMaybe_versionstamp := SqlRow_versionstamp row |}
  end.

(** [Promise.all]: fulfilled with all the values, or rejected as soon as one
    of the promises is; the promises are taken in the order of the list. *)
Fixpoint Promise_all {A : Type} (promises : list (outcome A))
    : outcome (list A) :=
  match promises with
  | [] => Ret []
  | p :: promises =>
      match p with
      | Throw e => Throw e
      | Ret a => l ← Promise_all promises; Ret (a :: l)
      end
  end.

Definition Kv_getMany (self : Kv) (keys : list KvKey)
    : outcome (list KvEntryMaybe) :=
  Promise_all (map (fun key => Kv_get self key) keys).

(** [Kv.set]: [{ key, versionstamp }] with the result of [commit]. *)
Definition Kv_set (self : Kv) (key : KvKey) (value : JsValue)
    : outcome (KvKey * KvCommit) :=
  op ← AtomicOperation_set (Kv_atomic self) key value;
  versionstamp ← fst (AtomicOperation_commit op);
  Ret (key, versionstamp).

End WithV8.

(** *** [KvListIterator.ts] *)

Inductive IteratorResult : Type :=
| IterDone                      (* { done: true, value: undefined } *)
| IterValue (value : KvEntry).  (* { done: false, value } *)

(** The three closures that [#cursorGen] can hold: [() => cursor] and the
    closure returning the empty string are [GenConst]; the closure built
    after a yield, which captures the entry, is [GenBoundary entry.key]. *)
Inductive CursorGen : Type :=
| GenConst (cursor : string)
| GenBoundary (boundary_key : KvKey).

(** The argument of the constructor, without [pullBatch]. *)
Record ListOptions : Type := {
  opt_limit : option Z;
  opt_selector : KvListSelector;
  opt_cursor : option string;
  opt_reverse : bool;
  opt_batchSize : Z;
  opt_consistency : KvConsistencyLevel
}.

(** The private fields, except [#pullBatch].  [limit], [batchSize] and
    [#count] are integers. *)
Record KvListIterator : Type := {
  it_selector : KvListSelector;
  it_entries : option (list KvEntry);
  it_cursorGen : option CursorGen;
  it_done : bool;
  it_lastBatch : bool;
  it_limit : option Z;
  it_count : Z;
  it_reverse : bool;
  it_batchSize : Z;
  it_consistency : KvConsistencyLevel
}.

Definition mk_selector (prefix start end_ : option KvKey) : KvListSelector :=
  {| selector_prefix := prefix; selector_start := start;
     selector_end := end_ |}.

(** The selector checks of the constructor. *)
Definition check_selector (selector : KvListSelector)
    : outcome KvListSelector :=
  let prefix := selector_prefix selector in
  let start := selector_start selector in
  let end_ := selector_end selector in
  match prefix with
  | Some prefix =>
      match start, end_ with
      | Some _, Some _ =>
          Throw (TypeError
            "Selector can not specify both 'start' and 'end' key when specifying 'prefix'.")
      | Some start, None => Ret (mk_selector (Some prefix) (Some start) None)
      | None, Some end_ => Ret (mk_selector (Some prefix) None (Some end_))
      | None, None => Ret (mk_selector (Some prefix) None None)
      end
  | None =>
      match start, end_ with
      | Some start, Some end_ => Ret (mk_selector None (Some start) (Some end_))
      | _, _ =>
          Throw (TypeError
            "Selector must specify either 'prefix' or both 'start' and 'end' key.")
      end
  end.

(** [cursor ? () => cursor : null]: an absent and an empty cursor are both
    falsy. *)
Definition initial_cursorGen (cursor : option string) : option CursorGen :=
  match cursor with
  | Some cursor =>
      if negb (String.eqb cursor EmptyString) then Some (GenConst cursor)
      else None
  | None => None
  end.

Definition new_KvListIterator (o : ListOptions) : outcome KvListIterator :=
  selector ← check_selector (opt_selector o);
  Ret {| it_selector := selector;
         it_entries := None;
         it_cursorGen := initial_cursorGen (opt_cursor o);
         it_done := false;
         it_lastBatch := false;
         it_limit := opt_limit o;
         it_count := 0;
         it_reverse := opt_reverse o;
         it_batchSize := opt_batchSize o;
         it_consistency := opt_consistency o |}.

Section WithStorage.

(** [encodeCursor] is called by the closure built in [next] but is neither
    defined nor imported by the file; it is a parameter here. *)
Variable encodeCursor :
  option KvKey * option KvKey * option KvKey -> KvKey -> outcome string.

(** The [pullBatch] callback.  Its first argument is the number of scans
    made before this one, so that the table may answer differently from one
    scan to the next. *)
Variable pullBatch :
  nat -> KvListSelector -> option string -> bool -> KvConsistencyLevel ->
  outcome (list KvEntry).

Definition run_cursorGen (selector : KvListSelector) (g : CursorGen)
    : outcome string :=
  match g with
  | GenConst cursor => Ret cursor
  | GenBoundary boundary_key =>
      encodeCursor
        (selector_prefix selector, selector_start selector,
         selector_end selector)
        boundary_key
  end.

(** [get cursor()]. *)
Definition KvListIterator_cursor (self : KvListIterator) : outcome string :=
  match it_cursorGen self with
  | None => Throw (Error "Cannot get cursor before first iteration")
  | Some g => run_cursorGen (it_selector self) g
  end.

(** [Array.prototype.pop]. *)
Definition pop {A : Type} (l : list A) : option A * list A :=
  match rev l with
  | [] => (None, l)
  | x :: r => (Some x, rev r)
  end.

Definition limit_reached (self : KvListIterator) : bool :=
  match it_limit self with
  | Some limit => it_count self >=? limit
  | None => false
  end.

(** [!this.#entries?.length] *)
Definition buffer_empty (self : KvListIterator) : bool :=
  match it_entries self with
  | None => true
  | Some entries => Z.of_nat (length entries) =? 0
  end.

Definition set_batch (self : KvListIterator) (batch : list KvEntry)
    : KvListIterator :=
  {| it_selector := it_selector self;
     it_entries := Some (rev batch);
     it_cursorGen := it_cursorGen self;
     it_done := it_done self;
     it_lastBatch :=
       if Z.of_nat (length batch) <? it_batchSize self then true
       else it_lastBatch self;
     it_limit := it_limit self;
     it_count := it_count self;
     it_reverse := it_reverse self;
     it_batchSize := it_batchSize self;
     it_consistency := it_consistency self |}.

Definition set_done (self : KvListIterator) : KvListIterator :=
  {| it_selector := it_selector self;
     it_entries := it_entries self;
     it_cursorGen := Some (GenConst EmptyString);
     it_done := true;
     it_lastBatch := it_lastBatch self;
     it_limit := it_limit self;
     it_count := it_count self;
     it_reverse := it_reverse self;
     it_batchSize := it_batchSize self;
     it_consistency := it_consistency self |}.

Definition set_yielded (self : KvListIterator) (rest : list KvEntry)
    (entry : KvEntry) : KvListIterator :=
  {| it_selector := it_selector self;
     it_entries := Some rest;
     it_cursorGen := Some (GenBoundary (KvEntry_key entry));
     it_done := it_done self;
     it_lastBatch := it_lastBatch self;
     it_limit := it_limit self;
     it_count := it_count self + 1;
     it_reverse := it_reverse self;
     it_batchSize := it_batchSize self;
     it_consistency := it_consistency self |}.

(** The guard at the top of [next]. *)
Definition finished (self : KvListIterator) : bool :=
  it_done self || limit_reached self.

(** "Attempt to fill the buffer": the iterator after the attempt and the
    number of scans made so far.  The cursor argument is computed before
    [pullBatch] is called; when either throws, the fields are untouched. *)
Definition fill_buffer (scans : nat) (self : KvListIterator)
    : outcome KvListIterator * nat :=
  if buffer_empty self && negb (it_lastBatch self) then
    let cursor :=
      match it_cursorGen self with
      | Some g => c ← run_cursorGen (it_selector self) g; Ret (Some c)
      | None => Ret None
      end in
    match cursor with
    | Throw e => (Throw e, scans)
    | Ret cursor =>
        match pullBatch scans (it_selector self) cursor (it_reverse self)
                (it_consistency self) with
        | Throw e => (Throw e, S scans)
        | Ret batch => (Ret (set_batch self batch), S scans)
        end
    end
  else (Ret self, scans).

(** [async next()]: the settled result, the iterator afterwards, and the
    number of scans made so far. *)
Definition KvListIterator_next (scans : nat) (self : KvListIterator)
    : outcome IteratorResult * KvListIterator * nat :=
  if finished self then (Ret IterDone, self, scans)
  else
    match fill_buffer scans self with
    | (Throw e, scans) => (Throw e, self, scans)
    | (Ret self, scans) =>
        match it_entries self with
        | None => (Ret IterDone, set_done self, scans)
        | Some entries =>
            match pop entries with
            | (None, _) => (Ret IterDone, set_done self, scans)
            | (Some entry, rest) =>
                (Ret (IterValue entry), set_yielded self rest entry, scans)
            end
        end
    end.

(** [n] successive calls of [next]. *)
Fixpoint next_times (n : nat) (scans : nat) (self : KvListIterator)
    : list (outcome IteratorResult) * KvListIterator * nat :=
  match n with
  | O => ([], self, scans)
  | S n =>
      let '(r, self, scans) := KvListIterator_next scans self in
      let '(rs, self, scans) := next_times n scans self in
      (r :: rs, self, scans)
  end.

End WithStorage.

(** *** A small table to run the definitions on *)

Definition no_rows : Database := {| Database_get := fun _ => None |}.

Definition sample_serialize (value : JsValue) : outcome (list Byte.byte) :=
  Ret [].

Definition sample_JSON_parse (text : string) : outcome JsValue :=
  Ret (JsString text).

Definition entry_named (name : string) : KvEntry :=
  {| KvEntry_key := [KvKeyPart_string name];
     KvEntry_value := JsString name;
     KvEntry_versionstamp := "00000000000000010000" |}.

Definition sample_table : list KvEntry :=
  map entry_named ["A"; "B"; "C"; "D"; "E"]%string.

Definition key_name (key : KvKey) : string :=
  match key with
  | [KvKeyPart_string name] => name
  | _ => EmptyString
  end.

(** A cursor that is the name of the boundary key. *)
Definition sample_encodeCursor
    (selector : option KvKey * option KvKey * option KvKey)
    (boundary_key : KvKey) : outcome string :=
  Ret (key_name boundary_key).

Fixpoint rows_after (cursor : string) (rows : list KvEntry) : list KvEntry :=
  match rows with
  | [] => []
  | row :: rows =>
      if String.eqb (key_name (KvEntry_key row)) cursor then rows
      else rows_after cursor rows
  end.

(** An ascending scan of [rows] of at most [batchSize] rows, resumed past
    the cursor. *)
Definition scan_of (rows : list KvEntry) (batchSize : nat) (scans : nat)
    (selector : KvListSelector) (cursor : option string) (reverse : bool)
    (consistency : KvConsistencyLevel) : outcome (list KvEntry) :=
  Ret (take batchSize
         match cursor with
         | None => rows
         | Some cursor => rows_after cursor rows
         end).


(** The iterator that [new_KvListIterator (sample_options cursor)] returns. *)
Definition sample_iterator (cursor : option string) : KvListIterator :=
  {| it_selector := mk_selector (Some []) None None;
     it_entries := None;
     it_cursorGen := initial_cursorGen cursor;
     it_done := false;
     it_lastBatch := false;
     it_limit := None;
     it_count := 0;
     it_reverse := false;
     it_batchSize := 2;
     it_consistency := strong |}.

(** The sample iterator over [sample_table] after [n] calls of [next], and
    the number of scans made by then. *)
Definition sample_after (n : nat) : KvListIterator * nat :=
  let '(_, self, scans) :=
    next_times sample_encodeCursor (scan_of sample_table 2) n 0
      (sample_iterator None) in
  (self, scans).


(** *** [deserializeValue.ts] *)

Section WithV8Decoder.

(** [deserialize] of [node:v8]. *)
Variable deserialize : list Byte.byte -> outcome JsValue.

(** [new KvU64(value)], the class constructor; [JsKvU64 n] is the object it
    makes of the bigint [n]. *)
Variable new_KvU64 : JsValue -> JsValue.

Definition deserializeValue (value : RawValue) : outcome JsValue :=
  match value with
  | RawValue_v8 value => deserialize value
  | RawValue_bytes value => Ret value
  | RawValue_u64 value => Ret (new_KvU64 value)
  end.

End WithV8Decoder.

(** The entries that a sequence of results of [next] has yielded. *)
Definition yielded (results : list (outcome IteratorResult)) : list KvEntry :=
  flat_map (fun result =>
              match result with
              | Ret (IterValue entry) => [entry]
              | _ => []
              end) results.

Section WithCursorEncoder.

Variable encodeCursor :
  option KvKey * option KvKey * option KvKey -> KvKey -> outcome string.

(** [this.#cursorGen ? this.#cursorGen() : undefined], the cursor that
    [next] hands to [pullBatch]. *)
Definition cursor_argument (self : KvListIterator)
    : outcome (option string) :=
  match it_cursorGen self with
  | Some g => c ← run_cursorGen encodeCursor (it_selector self) g; Ret (Some c)
  | None => Ret None
  end.

End WithCursorEncoder.

(** A scan that always fails. *)
Definition failing_scan (scans : nat) (selector : KvListSelector)
    (cursor : option string) (reverse : bool)
    (consistency : KvConsistencyLevel) : outcome (list KvEntry) :=
  Throw (Error "SQLITE_BUSY").

(** A constructor for [KvU64] that agrees with [JsKvU64] on bigints. *)
Definition sample_new_KvU64 (value : JsValue) : JsValue :=
  match value with
  | JsBigint n => JsKvU64 n
  | _ => JsObject (Some "KvU64"%string) 0
  end.

(** A [serialize] / [deserialize] pair for strings: the octets of the
    string. *)
Definition string_serialize (value : JsValue) : outcome (list Byte.byte) :=
  match value with
  | JsString s => Ret (String.list_byte_of_string s)
  | _ => Throw (Error "could not be cloned")
  end.

Definition string_deserialize (buffer : list Byte.byte) : outcome JsValue :=
  Ret (JsString (String.string_of_list_byte buffer)).

(** A table with one row, under the key [["a"]]. *)
Definition one_row_table : Database :=
  {| Database_get := fun key =>
       match key with
       | [KvKeyPart_string "a"] =>
           Some {| SqlRow_value := Some "1"%string;
                   SqlRow_versionstamp := Some "v1"%string |}
       | _ => None
       end |}.

(** The sample iterator with a limit of three entries. *)
Definition limited_iterator : KvListIterator :=
  {| it_selector := mk_selector (Some []) None None;
     it_entries := None;
     it_cursorGen := None;
     it_done := false;
     it_lastBatch := false;
     it_limit := Some 3;
     it_count := 0;
     it_reverse := false;
     it_batchSize := 2;
     it_consistency := strong |}.

End Polyfill.

(** * [with-global.cjs] *)

Module WithGlobal.
Import Polyfill.

(** The global object is a finite map from property names to values;
    [window[name]] of a missing property is [undefined]. *)
Definition window_get (window : gmap string JsValue) (name : string)
    : JsValue :=
  default JsUndefined (window !! name).

(** [mapValues(variables, (value, name) => window[name])]: one entry per
    name of [variables], also when [window[name]] is [undefined]. *)
Definition backup_of (window variables : gmap string JsValue)
    : gmap string JsValue :=
  map_imap (fun name _ => Some (window_get window name)) variables.

(** [forEach(variables, (value, name) => { window[name] = value; })]: the
    names are distinct, so the order of the assignments does not matter. *)
Definition assign_all (window variables : gmap string JsValue)
    : gmap string JsValue :=
  variables ∪ window.

(** What the callback returns: a value without a [then] method, or a
    thenable. *)
Inductive ReturnValue : Type :=
| Plain (value : JsValue)
| Thenable (promise : N).

(** The result of a call: the value returned or the exception thrown, the
    global object when the call returns, and the backups that a [cleanup]
    registered on a thenable still has to put back. *)
Record Outcome : Type := {
  returned : outcome ReturnValue;
  window_after : gmap string JsValue;
  pending_cleanup : option (gmap string JsValue)
}.

(** The callback runs on the global object and may change it. *)
Definition withGlobal (window variables : gmap string JsValue)
    (callback : gmap string JsValue ->
                outcome ReturnValue * gmap string JsValue)
    : Outcome :=
  let backups := backup_of window variables in
  let window := assign_all window variables in
  let '(returnValue, window) := callback window in
  match returnValue with
  | Ret (Thenable promise) =>
      {| returned := returnValue; window_after := window;
         pending_cleanup := Some backups |}
  | _ =>
      {| returned := returnValue;
         window_after := assign_all window backups;
         pending_cleanup := None |}
  end.

(** [cleanup], run when the thenable settles, on the global object of that
    moment. *)
Definition cleanup (window backups : gmap string JsValue)
    : gmap string JsValue :=
  assign_all window backups.

(** A callback that overwrites the global [Deno] and throws. *)
Definition clobbering_callback (window : gmap string JsValue)
    : outcome ReturnValue * gmap string JsValue :=
  (Throw (Error "boom"), <["Deno"%string := JsNull]> window).

(** A callback that returns a thenable and leaves the globals alone. *)
Definition async_callback (window : gmap string JsValue)
    : outcome ReturnValue * gmap string JsValue :=
  (Ret (Thenable 1), window).

Definition sample_window : gmap string JsValue :=
  {[ "Deno"%string := JsString "host" ]}.

Definition sample_variables : gmap string JsValue :=
  {[ "Deno"%string := JsString "shim";
     "__bootstrap"%string := JsBoolean true ]}.

End WithGlobal.

(** * Facts about the key codec *)

Section CodecFacts.
Import Codec.

Lemma is_sign_negative_nan (n : f64) :
  is_nan n = true -> is_sign_negative n = false.
Proof.
  intros Hnan. unfold is_sign_negative, js_lt_zero. now rewrite Hnan.
Qed.

Lemma canonicalize_f64_nan (n : f64) :
  is_nan n = true -> canonicalize_f64 n = CANONICAL_NAN_POS.
Proof.
  intros Hnan. unfold canonicalize_f64.
  rewrite Hnan, (is_sign_negative_nan n Hnan). reflexivity.
Qed.

Lemma canonicalize_f64_not_nan (n : f64) :
  is_nan n = false -> canonicalize_f64 n = n.
Proof. intros Hnan. unfold canonicalize_f64. now rewrite Hnan. Qed.

(** The port and the sign-bit reading differ exactly on the NaNs whose sign
    bit is set. *)
Lemma canonicalize_f64_agrees_iff (n : f64) :
  canonicalize_f64 n = canonicalize_f64_by_sign_bit n <->
  is_nan n && sign_bit n = false.
Proof.
  unfold canonicalize_f64_by_sign_bit.
  destruct (is_nan n) eqn:Hnan.
  - rewrite (canonicalize_f64_nan n Hnan).
    destruct (sign_bit n); simpl; split; intros H;
      try reflexivity; discriminate H.
  - rewrite (canonicalize_f64_not_nan n Hnan). simpl. tauto.
Qed.

(** C5.  At the negative quiet NaN [0xfff8000000000001] the port returns the
    positive canonical NaN [0x7ff8000000000000], not the negative one
    [0xfff8000000000000]: [is_sign_negative] is [+this < 0], which is false
    on every NaN, so the negative branch is never taken. *)
Theorem canonicalize_f64_negative_nan :
  is_nan 0xfff8000000000001 = true /\
  sign_bit 0xfff8000000000001 = true /\
  is_sign_negative 0xfff8000000000001 = false /\
  canonicalize_f64 0xfff8000000000001 = 0x7ff8000000000000 /\
  canonicalize_f64 0xfff8000000000001 <> CANONICAL_NAN_NEG.
Proof.
  repeat split; try (vm_compute; reflexivity).
  vm_compute. discriminate.
Qed.

Lemma encode_key_booleans :
  encode_key [KeyPart_False] = Ok [] /\ encode_key [KeyPart_True] = Ok [].
Proof. split; reflexivity. Qed.

(** C2.  [[False]] is below [[True]] in the order of [KeyPart], but
    [encode_key] writes nothing for either part and returns the empty
    vector for both, so the encodings are equal and not in order. *)
Theorem encode_key_not_order_preserving :
  Key_lt [KeyPart_False] [KeyPart_True] /\
  encode_key [KeyPart_False] = Ok [] /\
  encode_key [KeyPart_True] = Ok [] /\
  ~ bytes_lt (encoded [KeyPart_False]) (encoded [KeyPart_True]) /\
  ~ (forall k1 k2 : Key,
       bytes_lt (encoded k1) (encoded k2) <-> Key_lt k1 k2).
Proof.
  assert (Hlt : Key_lt [KeyPart_False] [KeyPart_True]) by reflexivity.
  assert (Hn : ~ bytes_lt (encoded [KeyPart_False]) (encoded [KeyPart_True]))
    by (vm_compute; discriminate).
  repeat split; try reflexivity; try assumption.
  intros Hall. apply Hn, Hall, Hlt.
Qed.

(** C3.  [encode_key] sends the one-part key [[False]] and the empty key to
    the same octets, so no decoder, whatever it is, returns every key from
    its encoding. *)
Theorem encode_key_no_round_trip :
  encode_key [KeyPart_False] = encode_key [] /\
  forall decode : list Byte.byte -> option Key,
    ~ (forall k : Key, decode (encoded k) = Some k).
Proof.
  split; [reflexivity |].
  intros decode Hall.
  pose proof (Hall [KeyPart_False]) as H1.
  pose proof (Hall []) as H2.
  change (encoded [KeyPart_False]) with (encoded []) in H1.
  rewrite H2 in H1. discriminate H1.
Qed.

End CodecFacts.

(** * Facts about [atomic_write] *)

Section SqliteFacts.
Import Sqlite.

Variable v2vs : Z -> Versionstamp.

Lemma checks_hold_Forall (db : Db) (cs : list KvCheck) :
  checks_hold v2vs db cs = true <-> Forall (check_passes v2vs db) cs.
Proof.
  induction cs as [| c cs IH]; simpl.
  - split; [constructor | reflexivity].
  - case_bool_decide as Hc.
    + split; [discriminate |].
      intros HF. inversion HF; subst. contradiction.
    + rewrite IH. split.
      * intros HF. constructor; [exact Hc | exact HF].
      * intros HF. inversion HF; subst. assumption.
Qed.

Lemma checks_hold_Exists (db : Db) (cs : list KvCheck) :
  Exists (fun c => ~ check_passes v2vs db c) cs ->
  checks_hold v2vs db cs = false.
Proof.
  induction 1 as [c cs Hc | c cs _ IH]; simpl; case_bool_decide as Hd;
    try reflexivity.
  - contradiction.
  - exact IH.
Qed.

(** Every mutation that succeeds either writes the row of its key under the
    version it was given, or deletes that row. *)
Lemma mutate_le64_inv tx key name operand version mutate tx' :
  mutate_le64 tx key name operand version mutate = Ok tx' ->
  exists n, tx' = point_set tx key (Value_U64 n) version.
Proof.
  unfold mutate_le64. destruct operand as [buf | buf | n]; try discriminate.
  destruct (point_get_value tx key) as [[buf | buf | old] |];
    try discriminate; intros [= <-]; eauto.
Qed.

Lemma apply_mutation_inv version tx m tx' :
  apply_mutation version tx m = Ok tx' ->
  (exists value, tx' = point_set tx (KvMutation_key m) value version) \/
  tx' = point_delete tx (KvMutation_key m).
Proof.
  unfold apply_mutation.
  destruct (KvMutation_kind m) as [value | | operand | operand | operand].
  - intros [= <-]. left. eauto.
  - intros [= <-]. right. reflexivity.
  - intros H. apply mutate_le64_inv in H as [n ->]. left. eauto.
  - intros H. apply mutate_le64_inv in H as [n ->]. left. eauto.
  - intros H. apply mutate_le64_inv in H as [n ->]. left. eauto.
Qed.

Lemma apply_mutation_data_version version tx m tx' :
  apply_mutation version tx m = Ok tx' -> data_version tx' = data_version tx.
Proof.
  intros H. apply apply_mutation_inv in H as [[value ->] | ->]; reflexivity.
Qed.

Lemma apply_mutation_other version tx m tx' k :
  apply_mutation version tx m = Ok tx' ->
  k <> KvMutation_key m -> kv tx' !! k = kv tx !! k.
Proof.
  intros H Hk. apply apply_mutation_inv in H as [[value ->] | ->]; simpl.
  - apply lookup_insert_ne. congruence.
  - apply lookup_delete_ne. congruence.
Qed.

Lemma apply_mutation_stamps version tx m tx' :
  apply_mutation version tx m = Ok tx' ->
  stamped version tx' (KvMutation_key m).
Proof.
  intros H row. apply apply_mutation_inv in H as [[value ->] | ->]; simpl.
  - rewrite lookup_insert_eq. intros [= <-]. reflexivity.
  - rewrite lookup_delete_eq. discriminate.
Qed.

Lemma apply_mutations_cons version tx m ms tx' :
  apply_mutations version tx (m :: ms) = Ok tx' ->
  exists tx1, apply_mutation version tx m = Ok tx1 /\
              apply_mutations version tx1 ms = Ok tx'.
Proof.
  simpl. destruct (apply_mutation version tx m) as [tx1 | e]; simpl.
  - intros H. exists tx1. split; [reflexivity | exact H].
  - discriminate.
Qed.

Lemma apply_mutations_data_version version ms :
  forall tx tx',
    apply_mutations version tx ms = Ok tx' ->
    data_version tx' = data_version tx.
Proof.
  induction ms as [| m ms IH]; intros tx tx' H.
  - injection H as <-. reflexivity.
  - apply apply_mutations_cons in H as (tx1 & H1 & H2).
    rewrite (IH _ _ H2). eapply apply_mutation_data_version, H1.
Qed.

Lemma apply_mutations_untouched version ms :
  forall tx tx' k,
    apply_mutations version tx ms = Ok tx' ->
    k ∉ mutated_keys ms -> kv tx' !! k = kv tx !! k.
Proof.
  induction ms as [| m ms IH]; intros tx tx' k H Hk.
  - injection H as <-. reflexivity.
  - apply apply_mutations_cons in H as (tx1 & H1 & H2).
    simpl in Hk. apply not_elem_of_cons in Hk as [Hne Hk].
    rewrite (IH _ _ _ H2 Hk). eapply apply_mutation_other; eassumption.
Qed.

Lemma apply_mutations_stamped version ms :
  forall tx tx' k,
    apply_mutations version tx ms = Ok tx' ->
    k ∈ mutated_keys ms \/ stamped version tx k ->
    stamped version tx' k.
Proof.
  induction ms as [| m ms IH]; intros tx tx' k H Hk.
  - injection H as <-. destruct Hk as [Hin | Hs]; [| exact Hs].
    simpl in Hin. apply elem_of_nil in Hin. contradiction.
  - apply apply_mutations_cons in H as (tx1 & H1 & H2).
    apply (IH _ _ _ H2).
    destruct (decide (k = KvMutation_key m)) as [-> | Hne].
    + right. eapply apply_mutation_stamps, H1.
    + destruct Hk as [Hin | Hs].
      * left. simpl in Hin. apply elem_of_cons in Hin as [? | Hin];
          [contradiction | exact Hin].
      * right. intros row. rewrite (apply_mutation_other _ _ _ _ _ H1 Hne).
        apply Hs.
Qed.

(** [well_typed] decides whether the mutation loop runs to its end. *)
Lemma kinds_of_point_set tx k v version :
  kinds_of (point_set tx k v version) = <[k := is_u64 v]> (kinds_of tx).
Proof. unfold kinds_of, point_set. cbn [kv]. now rewrite fmap_insert. Qed.

Lemma kinds_of_point_delete tx k :
  kinds_of (point_delete tx k) = delete k (kinds_of tx).
Proof. unfold kinds_of, point_delete. cbn [kv]. now rewrite fmap_delete. Qed.

Lemma mutate_le64_typed tx key name operand version mutate :
  numeric_target (kinds_of tx) key operand = true ->
  exists n,
    mutate_le64 tx key name operand version mutate
    = Ok (point_set tx key (Value_U64 n) version).
Proof.
  unfold numeric_target, kinds_of, mutate_le64, point_get_value.
  rewrite lookup_fmap.
  destruct operand as [buf | buf | n]; simpl; try discriminate.
  destruct (kv tx !! key) as [[[buf | buf | old] ver] |]; simpl;
    try discriminate; eauto.
Qed.

Lemma mutate_le64_ill_typed tx key name operand version mutate :
  numeric_target (kinds_of tx) key operand = false ->
  mutate_le64 tx key name operand version mutate = Err (TypeMismatch name).
Proof.
  unfold numeric_target, kinds_of, mutate_le64, point_get_value.
  rewrite lookup_fmap.
  destruct operand as [buf | buf | n]; simpl; try reflexivity.
  destruct (kv tx !! key) as [[[buf | buf | old] ver] |]; simpl;
    try discriminate; reflexivity.
Qed.

Lemma well_typed_apply version ms :
  forall tx,
    well_typed (kinds_of tx) ms = true ->
    exists tx', apply_mutations version tx ms = Ok tx'.
Proof.
  induction ms as [| m ms IH]; intros tx Hwt; simpl in *.
  - eauto.
  - unfold apply_mutation.
    destruct (KvMutation_kind m) as [value | | operand | operand | operand];
      simpl.
    + apply IH. rewrite kinds_of_point_set. exact Hwt.
    + apply IH. rewrite kinds_of_point_delete. exact Hwt.
    + apply andb_true_iff in Hwt as [Hn Hwt].
      destruct (mutate_le64_typed tx (KvMutation_key m) "sum" operand version
                  (fun a b => wrapping_add a b) Hn) as [n ->]; simpl.
      apply IH. rewrite kinds_of_point_set. exact Hwt.
    + apply andb_true_iff in Hwt as [Hn Hwt].
      destruct (mutate_le64_typed tx (KvMutation_key m) "min" operand version
                  (fun a b => u64_min a b) Hn) as [n ->]; simpl.
      apply IH. rewrite kinds_of_point_set. exact Hwt.
    + apply andb_true_iff in Hwt as [Hn Hwt].
      destruct (mutate_le64_typed tx (KvMutation_key m) "max" operand version
                  (fun a b => u64_max a b) Hn) as [n ->]; simpl.
      apply IH. rewrite kinds_of_point_set. exact Hwt.
Qed.

Lemma ill_typed_apply version ms :
  forall tx,
    well_typed (kinds_of tx) ms = false ->
    exists name, apply_mutations version tx ms = Err (TypeMismatch name).
Proof.
  induction ms as [| m ms IH]; intros tx Hwt; simpl in *.
  - discriminate.
  - unfold apply_mutation.
    destruct (KvMutation_kind m) as [value | | operand | operand | operand];
      simpl.
    + apply IH. rewrite kinds_of_point_set. exact Hwt.
    + apply IH. rewrite kinds_of_point_delete. exact Hwt.
    + destruct (numeric_target (kinds_of tx) (KvMutation_key m) operand)
        eqn:Hn.
      * destruct (mutate_le64_typed tx (KvMutation_key m) "sum" operand
                    version (fun a b => wrapping_add a b) Hn) as [n ->].
        simpl. apply IH. rewrite kinds_of_point_set. exact Hwt.
      * rewrite mutate_le64_ill_typed by exact Hn. simpl. eauto.
    + destruct (numeric_target (kinds_of tx) (KvMutation_key m) operand)
        eqn:Hn.
      * destruct (mutate_le64_typed tx (KvMutation_key m) "min" operand
                    version (fun a b => u64_min a b) Hn) as [n ->].
        simpl. apply IH. rewrite kinds_of_point_set. exact Hwt.
      * rewrite mutate_le64_ill_typed by exact Hn. simpl. eauto.
    + destruct (numeric_target (kinds_of tx) (KvMutation_key m) operand)
        eqn:Hn.
      * destruct (mutate_le64_typed tx (KvMutation_key m) "max" operand
                    version (fun a b => u64_max a b) Hn) as [n ->].
        simpl. apply IH. rewrite kinds_of_point_set. exact Hwt.
      * rewrite mutate_le64_ill_typed by exact Hn. simpl. eauto.
Qed.

(** The three ways [atomic_write] can end. *)
Lemma atomic_write_checks_fail db w :
  checks_hold v2vs db (checks w) = false ->
  atomic_write v2vs db w = (Ok None, db).
Proof. intros H. unfold atomic_write. rewrite H. reflexivity. Qed.

Lemma atomic_write_rolls_back db w :
  checks_hold v2vs db (checks w) = true ->
  well_typed (kinds_of db) (mutations w) = false ->
  exists name, atomic_write v2vs db w = (Err (TypeMismatch name), db).
Proof.
  intros Hc Hwt. unfold atomic_write. rewrite Hc. simpl.
  destruct (ill_typed_apply (data_version db + 1) (mutations w)
              (snd (inc_and_get_data_version db)) Hwt) as [name Hn].
  simpl in Hn. rewrite Hn. eauto.
Qed.

(** The quoted routine commits as documented.  When every check passes and
    no numeric mutation is ill-typed, [atomic_write] returns the commit result built from the
    counter's next value, the database it leaves is the one obtained by
    running all the mutations in order under that one version, the counter
    has moved by exactly one, every row under a mutated key carries the new
    version, and every other key is as it was. *)
Theorem atomic_write_commits (db : Db) (w : AtomicWrite) :
  Forall (check_passes v2vs db) (checks w) ->
  well_typed (kinds_of db) (mutations w) = true ->
  exists db',
    atomic_write v2vs db w
    = (Ok (Some {| versionstamp := v2vs (data_version db + 1) |}), db') /\
    apply_mutations (data_version db + 1)
      {| kv := kv db; data_version := data_version db + 1 |} (mutations w)
    = Ok db' /\
    data_version db' = data_version db + 1 /\
    (forall k, k ∈ mutated_keys (mutations w) ->
               stamped (data_version db + 1) db' k) /\
    (forall k, k ∉ mutated_keys (mutations w) -> kv db' !! k = kv db !! k).
Proof.
  intros Hchecks Hwt.
  apply checks_hold_Forall in Hchecks.
  set (tx := {| kv := kv db; data_version := data_version db + 1 |}).
  destruct (well_typed_apply (data_version db + 1) (mutations w) tx Hwt)
    as [db' Hrun].
  exists db'. repeat split.
  - unfold atomic_write. rewrite Hchecks. simpl. fold tx. rewrite Hrun.
    reflexivity.
  - exact Hrun.
  - apply apply_mutations_data_version in Hrun. exact Hrun.
  - intros k Hk. eapply apply_mutations_stamped; [exact Hrun |]. left. exact Hk.
  - intros k Hk. apply (apply_mutations_untouched _ _ _ _ _ Hrun Hk).
Qed.

End SqliteFacts.

Lemma atomic_write_commits_witness :
  exists db',
    Sqlite.atomic_write Sqlite.version_to_versionstamp_be Sqlite.empty_db
      Sqlite.sample_write
    = (Ok (Some {| Sqlite.versionstamp :=
                     Sqlite.version_to_versionstamp_be 1 |}), db') /\
    Sqlite.data_version db' = 1 /\
    Sqlite.stamped 1 db' [Byte.x61] /\
    Sqlite.stamped 1 db' [Byte.x6e].
Proof.
  destruct (atomic_write_commits Sqlite.version_to_versionstamp_be
              Sqlite.empty_db Sqlite.sample_write)
    as (db' & Hres & _ & Hver & Hst & _).
  - repeat constructor.
  - reflexivity.
  - exists db'. split; [exact Hres |]. split; [exact Hver |].
    split; apply Hst; simpl; set_solver.
Defined.

(** The optimistic-lock scenario: the first write commits under version 1;
    the second, which expects the key to be absent, is refused and the row
    keeps its value and its version. *)
Example optimistic_lock :
  exists db1,
    Sqlite.atomic_write Sqlite.version_to_versionstamp_be Sqlite.empty_db
      Sqlite.set_a_1
    = (Ok (Some {| Sqlite.versionstamp :=
                     Sqlite.version_to_versionstamp_be 1 |}), db1) /\
    Sqlite.atomic_write Sqlite.version_to_versionstamp_be db1
      Sqlite.set_a_2_if_absent
    = (Ok None, db1) /\
    Sqlite.kv db1 !! [Byte.x61]
    = Some {| Sqlite.Row_v := Sqlite.Value_U64 1; Sqlite.Row_version := 1 |}.
Proof.
  eexists. split; [reflexivity |]. split.
  - apply atomic_write_checks_fail. reflexivity.
  - reflexivity.
Qed.

(** Passing checks alone do not make the quoted routine commit: the write
    below has no check to fail, yet its sum
    meets the opaque value stored by the mutation before it; the call ends
    in an error, no commit result is returned and the database is as it
    was. *)
Lemma atomic_write_type_mismatch :
  Forall (Sqlite.check_passes Sqlite.version_to_versionstamp_be
            Sqlite.empty_db) (Sqlite.checks Sqlite.mismatch_write) /\
  Sqlite.atomic_write Sqlite.version_to_versionstamp_be Sqlite.empty_db
    Sqlite.mismatch_write
  = (Err (TypeMismatch "sum"), Sqlite.empty_db).
Proof.
  split; [constructor |].
  vm_compute. reflexivity.
Qed.

(** ** The sum mutation *)

Section SumFacts.
Import Sqlite.

Variable v2vs : Z -> Versionstamp.

Lemma wrapping_add_zero (n : Z) :
  0 <= n < 2 ^ 64 -> wrapping_add 0 n = n.
Proof. intros Hn. unfold wrapping_add. rewrite Z.add_0_l. apply Z.mod_small, Hn. Qed.

Lemma wrapping_add_range (a b : Z) : 0 <= wrapping_add a b < 2 ^ 64.
Proof. unfold wrapping_add. apply Z.mod_pos_bound. lia. Qed.

Lemma sum_on_absent (db : Db) (k : list Byte.byte) (n : Z) :
  kv db !! k = None ->
  atomic_write v2vs db (sum_write k n)
  = (Ok (Some {| versionstamp := v2vs (data_version db + 1) |}),
     point_set {| kv := kv db; data_version := data_version db + 1 |} k
       (Value_U64 n) (data_version db + 1)).
Proof.
  intros Habs. unfold atomic_write, sum_write. simpl.
  unfold apply_mutation, mutate_le64, point_get_value. simpl.
  rewrite Habs. reflexivity.
Qed.

Lemma sum_on_numeric (db : Db) (k : list Byte.byte) (old ver n : Z) :
  kv db !! k = Some {| Row_v := Value_U64 old; Row_version := ver |} ->
  atomic_write v2vs db (sum_write k n)
  = (Ok (Some {| versionstamp := v2vs (data_version db + 1) |}),
     point_set {| kv := kv db; data_version := data_version db + 1 |} k
       (Value_U64 ((old + n) mod 2 ^ 64)) (data_version db + 1)).
Proof.
  intros Hrow. unfold atomic_write, sum_write. simpl.
  unfold apply_mutation, mutate_le64, point_get_value. simpl.
  rewrite Hrow. reflexivity.
Qed.

(** C6.  A committed sum on an absent key stores its operand; a second
    committed sum stores the total reduced modulo 2^64; with the operands
    18446744073709551615 and 1 the stored value is 0. *)
Theorem sum_wraps_around (db : Db) (k : list Byte.byte) (a b : Z) :
  kv db !! k = None ->
  exists db1 db2,
    atomic_write v2vs db (sum_write k a)
    = (Ok (Some {| versionstamp := v2vs (data_version db + 1) |}), db1) /\
    kv db1 !! k
    = Some {| Row_v := Value_U64 a; Row_version := data_version db + 1 |} /\
    atomic_write v2vs db1 (sum_write k b)
    = (Ok (Some {| versionstamp := v2vs (data_version db + 2) |}), db2) /\
    kv db2 !! k
    = Some {| Row_v := Value_U64 ((a + b) mod 2 ^ 64);
              Row_version := data_version db + 2 |} /\
    (a = 18446744073709551615 -> b = 1 ->
     point_get_value db2 k = Some (Value_U64 0)).
Proof.
  intros Habs.
  eexists. eexists.
  split; [apply sum_on_absent, Habs |].
  split; [simpl; apply lookup_insert_eq |].
  assert (Hdv : data_version db + 1 + 1 = data_version db + 2) by lia.
  split.
  - erewrite sum_on_numeric by (simpl; apply lookup_insert_eq).
    simpl. rewrite Hdv. reflexivity.
  - split.
    + simpl. rewrite lookup_insert_eq. reflexivity.
    + intros -> ->. unfold point_get_value. simpl.
      rewrite lookup_insert_eq. reflexivity.
Qed.

End SumFacts.

Lemma sum_wraps_around_witness :
  Sqlite.kv Sqlite.empty_db !! [Byte.x6e] = None /\
  exists db1 db2,
    Sqlite.atomic_write Sqlite.version_to_versionstamp_be Sqlite.empty_db
      (Sqlite.sum_write [Byte.x6e] 18446744073709551615)
    = (Ok (Some {| Sqlite.versionstamp :=
                     Sqlite.version_to_versionstamp_be 1 |}), db1) /\
    Sqlite.atomic_write Sqlite.version_to_versionstamp_be db1
      (Sqlite.sum_write [Byte.x6e] 1)
    = (Ok (Some {| Sqlite.versionstamp :=
                     Sqlite.version_to_versionstamp_be 2 |}), db2) /\
    Sqlite.point_get_value db2 [Byte.x6e] = Some (Sqlite.Value_U64 0).
Proof.
  split; [reflexivity |].
  destruct (sum_wraps_around Sqlite.version_to_versionstamp_be
              Sqlite.empty_db [Byte.x6e] 18446744073709551615 1)
    as (db1 & db2 & H1 & _ & H2 & _ & H0).
  - reflexivity.
  - exists db1, db2. split; [exact H1 |]. split; [exact H2 |].
    apply H0; reflexivity.
Defined.

(** * Facts about the polyfill *)

Section PolyfillFacts.
Import Polyfill.

Variable serialize : JsValue -> outcome (list Byte.byte).
Variable JSON_parse : string -> outcome JsValue.

Lemma push_undefined {A : Type} (items : outcome (list A)) :
  push None items = Throw undefined_push.
Proof. reflexivity. Qed.

Lemma commit_never_succeeds (op : AtomicOperation) :
  AtomicOperation_commit op = (Ret KvCommitError, AtomicOperation_db op).
Proof. reflexivity. Qed.

(** C1.  On an operation whose list of checks is empty, so that no check can
    fail, and whatever its mutations are, [kvAtomicWrite] returns [null]
    and leaves the handle as it was, and [commit] reports [{ ok: false }]:
    no mutation is applied and no versionstamp is returned. *)
Theorem commit_without_checks_reports_failure (db : Database)
    (mutations : list (KvKey * string * Queued)) :
  kvAtomicWrite db (Some []) (Some mutations) = (Ret None, db) /\
  AtomicOperation_commit
    {| AtomicOperation_db := db;
       AtomicOperation_checks := Some [];
       AtomicOperation_mutations := Some mutations |}
  = (Ret KvCommitError, db).
Proof.
  split.
  - reflexivity.
  - apply (commit_never_succeeds
             {| AtomicOperation_db := db;
                AtomicOperation_checks := Some [];
                AtomicOperation_mutations := Some mutations |}).
Qed.

Lemma mutate_cons_undefined (op : AtomicOperation) m ms :
  AtomicOperation_mutations op = None ->
  AtomicOperation_mutate serialize op (m :: ms)
  = (mutation_entry serialize m ≫= fun _ => Throw undefined_push).
Proof.
  intros Hnone. simpl. destruct (mutation_entry serialize m) as [[type value] | e];
    simpl; [| reflexivity].
  rewrite Hnone. reflexivity.
Qed.

(** C9, as amended.  On the operation returned by [Kv.atomic()] both lists
    are undefined; [check], [set], [delete], [sum], [min] and [max] throw the
    TypeError of [undefined.push]; [mutate] with at least one mutation throws
    as well, that same TypeError unless the checks or the serialization of
    its first mutation throw before it, and [mutate] with no mutation
    returns the operation; [Kv.set] throws the TypeError for every key and
    value. *)
Theorem fresh_AtomicOperation_throws (self : Kv) :
  AtomicOperation_checks (Kv_atomic self) = None /\
  AtomicOperation_mutations (Kv_atomic self) = None /\
  (forall checks,
     AtomicOperation_check (Kv_atomic self) checks = Throw undefined_push) /\
  (forall key value,
     AtomicOperation_set serialize (Kv_atomic self) key value
     = Throw undefined_push) /\
  (forall key,
     AtomicOperation_delete (Kv_atomic self) key = Throw undefined_push) /\
  (forall key n,
     AtomicOperation_sum serialize (Kv_atomic self) key n
     = Throw undefined_push /\
     AtomicOperation_min serialize (Kv_atomic self) key n
     = Throw undefined_push /\
     AtomicOperation_max serialize (Kv_atomic self) key n
     = Throw undefined_push) /\
  (forall m ms,
     AtomicOperation_mutate serialize (Kv_atomic self) (m :: ms)
     = (mutation_entry serialize m ≫= fun _ => Throw undefined_push) /\
     throws (AtomicOperation_mutate serialize (Kv_atomic self) (m :: ms))) /\
  AtomicOperation_mutate serialize (Kv_atomic self) [] = Ret (Kv_atomic self) /\
  (forall key value,
     Kv_set serialize self key value = Throw undefined_push).
Proof.
  do 5 (split; [reflexivity |]).
  split; [intros key n; repeat split; reflexivity |].
  split; [| split; reflexivity].
  intros m ms. split; [apply mutate_cons_undefined; reflexivity |].
  rewrite mutate_cons_undefined by reflexivity.
  destruct (mutation_entry serialize m) as [p | e]; simpl; eexists; reflexivity.
Qed.

Lemma Promise_all_rejects {A : Type} (promises : list (outcome A)) p :
  p ∈ promises -> throws p -> throws (Promise_all promises).
Proof.
  induction promises as [| q promises IH]; intros Hin Hp.
  - apply elem_of_nil in Hin. contradiction.
  - simpl. destruct q as [a | e].
    + apply elem_of_cons in Hin as [-> | Hin].
      * destruct Hp as [e He]. discriminate He.
      * destruct (IH Hin Hp) as [e ->]. exists e. reflexivity.
    + exists e. reflexivity.
Qed.

(** C10.  When the table has no row for [key], [Kv.get] throws the TypeError
    of destructuring [undefined], and [Kv.getMany] rejects for every list of
    keys in which [key] occurs. *)
Theorem Kv_get_absent_throws (self : Kv) (key : KvKey) :
  Database_get (Kv_db self) key = None ->
  Kv_get JSON_parse self key = Throw undefined_destructure /\
  throws_TypeError (Kv_get JSON_parse self key) /\
  forall keys, key ∈ keys -> throws (Kv_getMany JSON_parse self keys).
Proof.
  intros Habs.
  assert (Hget : Kv_get JSON_parse self key = Throw undefined_destructure).
  { unfold Kv_get. rewrite Habs. reflexivity. }
  split; [exact Hget |]. split.
  - rewrite Hget. eexists. reflexivity.
  - intros keys Hin. unfold Kv_getMany.
    apply (Promise_all_rejects _ (Kv_get JSON_parse self key)).
    + apply list_elem_of_fmap. exists key. split; [reflexivity | exact Hin].
    + rewrite Hget. eexists. reflexivity.
Qed.

End PolyfillFacts.

Lemma Kv_get_absent_throws_witness :
  Polyfill.Kv_get Polyfill.sample_JSON_parse
    {| Polyfill.Kv_db := Polyfill.no_rows |} [Polyfill.KvKeyPart_string "a"]
  = Throw Polyfill.undefined_destructure /\
  throws (Polyfill.Kv_getMany Polyfill.sample_JSON_parse
            {| Polyfill.Kv_db := Polyfill.no_rows |}
            [[Polyfill.KvKeyPart_string "a"]]).
Proof.
  destruct (Kv_get_absent_throws Polyfill.sample_JSON_parse
              {| Polyfill.Kv_db := Polyfill.no_rows |}
              [Polyfill.KvKeyPart_string "a"]) as (Hget & _ & Hmany).
  - reflexivity.
  - split; [exact Hget |]. apply Hmany. apply list_elem_of_here.
Defined.

(** C9, as stated, fails: [mutate] called with no mutation on a fresh
    operation returns it and throws nothing. *)
Lemma mutate_nothing_returns :
  Polyfill.AtomicOperation_mutate Polyfill.sample_serialize
    (Polyfill.Kv_atomic {| Polyfill.Kv_db := Polyfill.no_rows |}) []
  = Ret (Polyfill.Kv_atomic {| Polyfill.Kv_db := Polyfill.no_rows |}) /\
  ~ throws (Polyfill.AtomicOperation_mutate Polyfill.sample_serialize
              (Polyfill.Kv_atomic {| Polyfill.Kv_db := Polyfill.no_rows |}) []).
Proof.
  split; [reflexivity |]. intros [e He]. discriminate He.
Qed.

(** * Check failure *)

(** C4.  When some check of the write expects a versionstamp other than the
    one the table has for its key, [atomic_write] returns [Ok(None)] and the
    database is the one it was given: no mutation has run and the counter
    has not moved; and [commit] turns the [null] it receives into the value
    [{ ok: false }], leaving its handle as it was. *)
Theorem failed_check_aborts (v2vs : Z -> Sqlite.Versionstamp)
    (db : Sqlite.Db) (w : Sqlite.AtomicWrite) (op : Polyfill.AtomicOperation) :
  Exists (fun c => ~ Sqlite.check_passes v2vs db c) (Sqlite.checks w) ->
  Sqlite.atomic_write v2vs db w = (Ok None, db) /\
  Polyfill.AtomicOperation_commit op
  = (Ret Polyfill.KvCommitError, Polyfill.AtomicOperation_db op).
Proof.
  intros Hfail. split.
  - apply atomic_write_checks_fail, checks_hold_Exists, Hfail.
  - apply commit_never_succeeds.
Qed.

Lemma failed_check_aborts_witness :
  Sqlite.atomic_write Sqlite.version_to_versionstamp_be Sqlite.empty_db
    Sqlite.stale_write
  = (Ok None, Sqlite.empty_db) /\
  Polyfill.AtomicOperation_commit
    (Polyfill.Kv_atomic {| Polyfill.Kv_db := Polyfill.no_rows |})
  = (Ret Polyfill.KvCommitError, Polyfill.no_rows).
Proof.
  apply (failed_check_aborts Sqlite.version_to_versionstamp_be
           Sqlite.empty_db Sqlite.stale_write
           (Polyfill.Kv_atomic {| Polyfill.Kv_db := Polyfill.no_rows |})).
  apply Exists_cons_hd. unfold Sqlite.check_passes. simpl. discriminate.
Defined.

(** * Facts about the list iterator *)

Section IteratorFacts.
Import Polyfill.

Variable encodeCursor :
  option KvKey * option KvKey * option KvKey -> KvKey -> outcome string.
Variable pullBatch :
  nat -> KvListSelector -> option string -> bool -> KvConsistencyLevel ->
  outcome (list KvEntry).

Lemma next_when_finished (scans : nat) (self : KvListIterator) :
  finished self = true ->
  KvListIterator_next encodeCursor pullBatch scans self
  = (Ret IterDone, self, scans).
Proof.
  unfold KvListIterator_next. intros ->. reflexivity.
Qed.

Lemma next_done_finished scans self self' scans' :
  KvListIterator_next encodeCursor pullBatch scans self
  = (Ret IterDone, self', scans') ->
  finished self' = true.
Proof.
  unfold KvListIterator_next.
  destruct (finished self) eqn:Hguard.
  - intros [= <- <-]. exact Hguard.
  - destruct (fill_buffer encodeCursor pullBatch scans self)
      as [[filled | e] scans1]; [| discriminate].
    destruct (it_entries filled) as [entries |].
    + destruct (pop entries) as [[entry |] rest].
      * discriminate.
      * intros [= <- <-]. reflexivity.
    + intros [= <- <-]. reflexivity.
Qed.

Lemma next_times_finished (n : nat) (scans : nat) (self : KvListIterator) :
  finished self = true ->
  next_times encodeCursor pullBatch n scans self
  = (repeat (Ret IterDone) n, self, scans).
Proof.
  intros Hfin. induction n as [| n IH]; simpl.
  - reflexivity.
  - rewrite (next_when_finished scans self Hfin), IH. reflexivity.
Qed.

(** C7.  Once a call of [next] has resolved to a done result, every later
    call resolves to a done result too, the iterator no longer changes, and
    the number of scans stays where it was: [pullBatch] is not called
    again. *)
Theorem next_fused (scans : nat) (self : KvListIterator)
    (self' : KvListIterator) (scans' : nat) :
  KvListIterator_next encodeCursor pullBatch scans self
  = (Ret IterDone, self', scans') ->
  forall n,
    next_times encodeCursor pullBatch n scans' self'
    = (repeat (Ret IterDone) n, self', scans').
Proof.
  intros Hdone n. apply next_times_finished.
  eapply next_done_finished, Hdone.
Qed.






End IteratorFacts.

(** The model run on five rows in batches of two: the rows come out in
    order, followed by a done result, after three scans. *)
Example list_in_batches :
  Polyfill.next_times Polyfill.sample_encodeCursor
    (Polyfill.scan_of Polyfill.sample_table 2) 6 0
    (Polyfill.sample_iterator None)
  = (map (fun name => Ret (Polyfill.IterValue (Polyfill.entry_named name)))
       ["A"; "B"; "C"; "D"; "E"]%string ++ [Ret Polyfill.IterDone],
     fst (Polyfill.sample_after 6), 3%nat).
Proof. vm_compute. reflexivity. Qed.

(** A second iterator built with the cursor taken after ["B"] yields the
    remaining rows. *)
Example list_resumed :
  Polyfill.KvListIterator_cursor Polyfill.sample_encodeCursor
    (fst (Polyfill.sample_after 2)) = Ret "B"%string /\
  fst (fst (Polyfill.next_times Polyfill.sample_encodeCursor
              (Polyfill.scan_of Polyfill.sample_table 2) 4 0
              (Polyfill.sample_iterator (Some "B"%string))))
  = map (fun name => Ret (Polyfill.IterValue (Polyfill.entry_named name)))
      ["C"; "D"; "E"]%string ++ [Ret Polyfill.IterDone].
Proof. split; vm_compute; reflexivity. Qed.

Lemma next_fused_witness :
  Polyfill.KvListIterator_next Polyfill.sample_encodeCursor
    (Polyfill.scan_of Polyfill.sample_table 2)
    (snd (Polyfill.sample_after 5)) (fst (Polyfill.sample_after 5))
  = (Ret Polyfill.IterDone, fst (Polyfill.sample_after 6),
     snd (Polyfill.sample_after 6)) /\
  Polyfill.next_times Polyfill.sample_encodeCursor
    (Polyfill.scan_of Polyfill.sample_table 2) 4
    (snd (Polyfill.sample_after 6)) (fst (Polyfill.sample_after 6))
  = (repeat (Ret Polyfill.IterDone) 4, fst (Polyfill.sample_after 6),
     snd (Polyfill.sample_after 6)).
Proof.
  split.
  - vm_compute. reflexivity.
  - apply (next_fused Polyfill.sample_encodeCursor
             (Polyfill.scan_of Polyfill.sample_table 2)
             (snd (Polyfill.sample_after 5)) (fst (Polyfill.sample_after 5))).
    vm_compute. reflexivity.
Defined.


(** Nor is a yield needed afterwards: when the first call of [next] finds
    nothing, the getter returns the empty string from then on. *)
Lemma cursor_after_empty_iteration :
  exists self',
    Polyfill.KvListIterator_next Polyfill.sample_encodeCursor
      (Polyfill.scan_of [] 2) 0 (Polyfill.sample_iterator None)
    = (Ret Polyfill.IterDone, self', 1%nat) /\
    Polyfill.KvListIterator_cursor Polyfill.sample_encodeCursor self'
    = Ret EmptyString.
Proof. eexists. split; reflexivity. Qed.

(** The same at the end of a resumed listing: built with the cursor that
    stands at the last row, the iterator yields nothing, and after its
    first call of [next] the getter returns the empty string instead of
    the cursor it was given. *)
Example cursor_after_resumed_exhaustion :
  exists self',
    Polyfill.KvListIterator_next Polyfill.sample_encodeCursor
      (Polyfill.scan_of Polyfill.sample_table 2) 0
      (Polyfill.sample_iterator (Some "E"%string))
    = (Ret Polyfill.IterDone, self', 1%nat) /\
    Polyfill.KvListIterator_cursor Polyfill.sample_encodeCursor
      (Polyfill.sample_iterator (Some "E"%string)) = Ret "E"%string /\
    Polyfill.KvListIterator_cursor Polyfill.sample_encodeCursor self'
    = Ret EmptyString.
Proof. eexists. repeat split; reflexivity. Qed.


(** * More on the order of key parts *)

Section KeyOrderFacts.
Import Codec.

Lemma u8_val_inj (x y : Byte.byte) : u8_val x = u8_val y -> x = y.
Proof.
  unfold u8_val. intros H. apply N2Z.inj in H.
  apply (f_equal Byte.of_N) in H. rewrite !Byte.of_to_N in H.
  now injection H.
Qed.

Lemma bytes_cmp_antisym (a : list Byte.byte) :
  forall b, bytes_cmp a b = CompOpp (bytes_cmp b a).
Proof.
  induction a as [| x a IH]; intros [| y b]; simpl; try reflexivity.
  rewrite (Z.compare_antisym (u8_val x) (u8_val y)).
  destruct (u8_val x ?= u8_val y); simpl; [apply IH | reflexivity ..].
Qed.

Lemma bytes_cmp_eq (a : list Byte.byte) :
  forall b, bytes_cmp a b = Eq -> a = b.
Proof.
  induction a as [| x a IH]; intros [| y b]; simpl;
    try reflexivity; try discriminate.
  destruct (u8_val x ?= u8_val y) eqn:Hxy; try discriminate.
  intros H. apply Z.compare_eq in Hxy. apply u8_val_inj in Hxy.
  f_equal; [exact Hxy | apply IH, H].
Qed.

Lemma bytes_cmp_refl (a : list Byte.byte) : bytes_cmp a a = Eq.
Proof.
  induction a as [| x a IH]; simpl; [reflexivity |].
  now rewrite Z.compare_refl.
Qed.

Lemma bytes_cmp_trans (a : list Byte.byte) :
  forall b c, bytes_cmp a b = Lt -> bytes_cmp b c = Lt -> bytes_cmp a c = Lt.
Proof.
  induction a as [| x a IH]; intros [| y b] [| z c]; simpl;
    try reflexivity; try discriminate.
  destruct (u8_val x ?= u8_val y) eqn:Hxy;
    destruct (u8_val y ?= u8_val z) eqn:Hyz; try discriminate.
  - apply Z.compare_eq in Hxy, Hyz. rewrite Hxy, Hyz, Z.compare_refl.
    apply IH.
  - apply Z.compare_eq in Hxy. rewrite Hxy, Hyz. reflexivity.
  - apply Z.compare_eq in Hyz. rewrite <- Hyz, Hxy. reflexivity.
  - intros _ _. rewrite Z.compare_lt_iff in Hxy, Hyz.
    assert (Hxz : u8_val x < u8_val z) by lia.
    apply Z.compare_lt_iff in Hxz. now rewrite Hxz.
Qed.

Lemma cmp_refl (p : KeyPart) : cmp p p = Eq.
Proof.
  destruct p; cbn [cmp tag_ordering]; try reflexivity.
  - apply bytes_cmp_refl.
  - apply bytes_cmp_refl.
  - apply Z.compare_refl.
  - apply Z.compare_refl.
Qed.

(** Swapping the two operands of [cmp] reverses its answer. *)
Lemma cmp_swap (self other : KeyPart) :
  cmp self other = CompOpp (cmp other self).
Proof.
  destruct self, other; cbn [cmp tag_ordering]; try reflexivity.
  - apply bytes_cmp_antisym.
  - apply bytes_cmp_antisym.
  - apply Z.compare_antisym.
  - apply Z.compare_antisym.
Qed.

(** Parts that compare [Equal] compare alike with every third part. *)
Lemma cmp_eq_compat (a b c : KeyPart) :
  cmp a b = Eq -> cmp a c = cmp b c.
Proof.
  destruct a, b; cbn [cmp tag_ordering]; try discriminate; intros Hab.
  - apply bytes_cmp_eq in Hab. now subst.
  - apply bytes_cmp_eq in Hab. destruct c; cbn [cmp tag_ordering];
      try reflexivity. now rewrite Hab.
  - apply Z.compare_eq in Hab. now subst.
  - apply Z.compare_eq in Hab. destruct c; cbn [cmp tag_ordering];
      try reflexivity. unfold total_cmp. now rewrite Hab.
  - reflexivity.
  - reflexivity.
Qed.

Lemma Z_compare_trans (x y z : Z) :
  (x ?= y) = Lt -> (y ?= z) = Lt -> (x ?= z) = Lt.
Proof. rewrite !Z.compare_lt_iff. lia. Qed.

Lemma cmp_lt_trans (a b c : KeyPart) :
  cmp a b = Lt -> cmp b c = Lt -> cmp a c = Lt.
Proof.
  destruct a, b; cbn [cmp tag_ordering]; try discriminate;
    destruct c; cbn [cmp tag_ordering]; try discriminate;
    try reflexivity.
  - apply bytes_cmp_trans.
  - apply bytes_cmp_trans.
  - apply Z_compare_trans.
  - apply Z_compare_trans.
Qed.

(** X1.  [cmp] orders the parts of all six kinds totally: swapping the
    operands reverses the answer, so any two parts are comparable and never
    below one another both ways; a part is equal to itself; and [cmp] is
    transitive, also through parts of different kinds. *)
Theorem cmp_total_order :
  (forall a b, cmp a b = CompOpp (cmp b a)) /\
  (forall a, cmp a a = Eq /\ KeyPart_eq a a = true) /\
  (forall a b c, cmp a b = Lt -> cmp b c = Lt -> cmp a c = Lt) /\
  (forall a b c, cmp a b = Eq -> cmp b c = Eq -> cmp a c = Eq).
Proof.
  split; [exact cmp_swap |]. split; [| split].
  - intros a. unfold KeyPart_eq. rewrite cmp_refl. split; reflexivity.
  - exact cmp_lt_trans.
  - intros a b c Hab Hbc. rewrite (cmp_eq_compat a b c Hab). exact Hbc.
Qed.

Lemma Key_cmp_antisym (k1 : Key) :
  forall k2, Key_cmp k1 k2 = CompOpp (Key_cmp k2 k1).
Proof.
  induction k1 as [| p1 k1 IH]; intros [| p2 k2]; cbn [Key_cmp];
    try reflexivity.
  rewrite (cmp_swap p1 p2).
  destruct (cmp p2 p1); cbn [CompOpp]; [apply IH | reflexivity ..].
Qed.

(** X2.  The order on keys is a strict order with the empty key at the
    bottom: no key is below itself, [Key_lt] is transitive, and the empty
    key is below every other key. *)
Theorem Key_lt_strict_order :
  (forall k, ~ Key_lt k k) /\
  (forall k1 k2 k3, Key_lt k1 k2 -> Key_lt k2 k3 -> Key_lt k1 k3) /\
  (forall k, k <> [] -> Key_lt [] k).
Proof.
  unfold Key_lt. split; [| split].
  - intros k. induction k as [| p k IH]; cbn [Key_cmp]; [discriminate |].
    rewrite cmp_refl. exact IH.
  - intros k1. induction k1 as [| p1 k1 IH]; intros [| p2 k2] [| p3 k3];
      cbn [Key_cmp]; try reflexivity; try discriminate.
    destruct (cmp p1 p2) eqn:H12; try discriminate.
    + rewrite (cmp_eq_compat p1 p2 p3 H12).
      destruct (cmp p2 p3); try discriminate; [apply IH | reflexivity].
    + intros _. destruct (cmp p2 p3) eqn:H23; try discriminate.
      * intros _. rewrite cmp_swap in H23.
        destruct (cmp p3 p2) eqn:H32; try discriminate.
        rewrite cmp_swap, (cmp_eq_compat p3 p2 p1 H32).
        rewrite cmp_swap in H12.
        destruct (cmp p2 p1); try discriminate. reflexivity.
      * intros _. now rewrite (cmp_lt_trans p1 p2 p3 H12 H23).
  - intros [| p k] Hne; [contradiction | reflexivity].
Qed.

End KeyOrderFacts.

(** * More on floats and on [encode_key] *)

Section CodecMoreFacts.
Import Codec.

(** X5.  Float parts that hold NaNs are all equal to [cmp] and to [eq],
    also when one has its sign bit set and the other has not: both are
    canonicalized to the same positive NaN. *)
Theorem cmp_nan_parts_equal (f1 f2 : f64) :
  is_nan f1 = true -> is_nan f2 = true ->
  cmp (KeyPart_Float f1) (KeyPart_Float f2) = Eq /\
  KeyPart_eq (KeyPart_Float f1) (KeyPart_Float f2) = true.
Proof.
  intros H1 H2. unfold KeyPart_eq. cbn [cmp].
  rewrite (canonicalize_f64_nan f1 H1), (canonicalize_f64_nan f2 H2).
  split; reflexivity.
Qed.

Lemma exponent_spec (n : f64) : exponent n = (n / 2 ^ 52) mod 2 ^ 11.
Proof.
  unfold exponent. change 0x7ff with (Z.ones 11).
  rewrite Z.land_ones by lia. now rewrite Z.shiftr_div_pow2 by lia.
Qed.

Lemma fraction_spec (n : f64) : fraction n = n mod 2 ^ 52.
Proof.
  unfold fraction. change 0xfffffffffffff with (Z.ones 52).
  now rewrite Z.land_ones by lia.
Qed.

(** A pattern at or above the positive canonical NaN with a clear sign bit
    is a NaN. *)
Lemma above_canonical_is_nan (n : f64) :
  CANONICAL_NAN_POS <= n < 2 ^ 63 -> is_nan n = true.
Proof.
  unfold CANONICAL_NAN_POS, is_nan. intros Hn.
  rewrite exponent_spec, fraction_spec.
  assert (Hq : n / 2 ^ 52 = 2047).
  { apply Z.le_antisymm.
    - apply Z.lt_succ_r. apply Z.div_lt_upper_bound; lia.
    - apply Z.div_le_lower_bound; lia. }
  rewrite Hq.
  pose proof (Z.div_mod n (2 ^ 52) ltac:(lia)) as Hdm. rewrite Hq in Hdm.
  apply andb_true_iff. split.
  - reflexivity.
  - apply negb_true_iff, Z.eqb_neq. lia.
Qed.

Lemma total_cmp_key_below_nan (n : f64) :
  0 <= n < 2 ^ 64 -> is_nan n = false ->
  total_cmp_key n < total_cmp_key CANONICAL_NAN_POS.
Proof.
  intros Hn Hnan.
  change (total_cmp_key CANONICAL_NAN_POS) with CANONICAL_NAN_POS.
  unfold total_cmp_key, as_i64.
  destruct (n <? 2 ^ 63) eqn:Hsign.
  - apply Z.ltb_lt in Hsign.
    destruct (n <? 0) eqn:Hneg; [apply Z.ltb_lt in Hneg; lia |].
    destruct (Z_lt_le_dec n CANONICAL_NAN_POS) as [Hlt | Hge];
      [exact Hlt |].
    rewrite above_canonical_is_nan in Hnan by lia. discriminate.
  - apply Z.ltb_ge in Hsign.
    destruct (n - 2 ^ 64 <? 0) eqn:Hneg;
      [| apply Z.ltb_ge in Hneg; lia].
    assert (Hx : ~ 0 <= Z.lxor (n - 2 ^ 64) 0x7fffffffffffffff).
    { rewrite Z.lxor_nonneg. lia. }
    unfold CANONICAL_NAN_POS. lia.
Qed.

(** X6.  A float part that holds a NaN, of either sign, is above every float
    part that holds a number, the infinities included. *)
Theorem cmp_nan_part_is_greatest (f n : f64) :
  is_nan f = true -> 0 <= n < 2 ^ 64 -> is_nan n = false ->
  cmp (KeyPart_Float f) (KeyPart_Float n) = Gt.
Proof.
  intros Hf Hn Hnan. cbn [cmp].
  rewrite (canonicalize_f64_nan f Hf), (canonicalize_f64_not_nan n Hnan).
  unfold total_cmp. apply Z.compare_gt_iff.
  apply total_cmp_key_below_nan; assumption.
Qed.

(** X7.  [canonicalize_f64] is idempotent, and the only NaN it ever returns
    is the positive canonical one. *)
Theorem canonicalize_f64_idempotent (n : f64) :
  canonicalize_f64 (canonicalize_f64 n) = canonicalize_f64 n /\
  (is_nan (canonicalize_f64 n) = true ->
   canonicalize_f64 n = CANONICAL_NAN_POS).
Proof.
  destruct (is_nan n) eqn:Hnan.
  - rewrite (canonicalize_f64_nan n Hnan). split; reflexivity.
  - rewrite (canonicalize_f64_not_nan n Hnan).
    rewrite (canonicalize_f64_not_nan n Hnan), Hnan. split;
      [reflexivity | discriminate].
Qed.



End CodecMoreFacts.

Lemma cmp_nan_parts_equal_witness :
  Codec.cmp (Codec.KeyPart_Float 0xfff8000000000001)
            (Codec.KeyPart_Float 0x7ff0000000000001) = Eq /\
  Codec.KeyPart_eq (Codec.KeyPart_Float 0xfff8000000000001)
                   (Codec.KeyPart_Float 0x7ff0000000000001) = true.
Proof.
  apply (cmp_nan_parts_equal 0xfff8000000000001 0x7ff0000000000001);
    reflexivity.
Defined.

(** The negative NaN against positive infinity. *)
Lemma cmp_nan_part_is_greatest_witness :
  Codec.cmp (Codec.KeyPart_Float 0xfff8000000000000)
            (Codec.KeyPart_Float 0x7ff0000000000000) = Gt.
Proof.
  apply (cmp_nan_part_is_greatest 0xfff8000000000000 0x7ff0000000000000).
  - reflexivity.
  - lia.
  - reflexivity.
Defined.

(** * More on [atomic_write] *)

Section AtomicWriteMoreFacts.
Import Sqlite.

Variable v2vs : Z -> Versionstamp.

(** The database after the call is the one before it, unless the call
    returns a commit result; then it is the result of the mutation loop. *)
Lemma atomic_write_cases (db : Db) (w : AtomicWrite) :
  (snd (atomic_write v2vs db w) = db /\
   forall cr, fst (atomic_write v2vs db w) <> Ok (Some cr)) \/
  exists db',
    atomic_write v2vs db w
    = (Ok (Some {| versionstamp := v2vs (data_version db + 1) |}), db') /\
    apply_mutations (data_version db + 1)
      {| kv := kv db; data_version := data_version db + 1 |} (mutations w)
    = Ok db'.
Proof.
  unfold atomic_write.
  destruct (checks_hold v2vs db (checks w)); simpl.
  - destruct (apply_mutations (data_version db + 1)
                {| kv := kv db; data_version := data_version db + 1 |}
                (mutations w)) as [db' | e] eqn:Hrun.
    + right. exists db'. split; reflexivity.
    + left. split; [reflexivity | discriminate].
  - left. split; [reflexivity | discriminate].
Qed.

Lemma atomic_write_committed (db : Db) (w : AtomicWrite) cr db' :
  atomic_write v2vs db w = (Ok (Some cr), db') ->
  cr = {| versionstamp := v2vs (data_version db + 1) |} /\
  apply_mutations (data_version db + 1)
    {| kv := kv db; data_version := data_version db + 1 |} (mutations w)
  = Ok db'.
Proof.
  intros H. destruct (atomic_write_cases db w) as [[_ Hno] | (db2 & Hw & Hrun)].
  - exfalso. apply (Hno cr). now rewrite H.
  - rewrite Hw in H. injection H as <- <-. split; [reflexivity | exact Hrun].
Qed.

(** X9.  Whatever the outcome of [atomic_write], the counter never goes
    back, and if no row carried a version above the counter before the
    call, none does after it. *)
Theorem atomic_write_versions_bounded (db : Db) (w : AtomicWrite) :
  versions_bounded db ->
  data_version db <= data_version (snd (atomic_write v2vs db w)) /\
  versions_bounded (snd (atomic_write v2vs db w)).
Proof.
  intros Hb.
  destruct (atomic_write_cases db w) as [[-> _] | (db' & -> & Hrun)].
  - split; [lia | exact Hb].
  - cbn [snd].
    pose proof (apply_mutations_data_version _ _ _ _ Hrun) as Hdv.
    cbn [data_version] in Hdv. split; [lia |].
    intros k row Hrow. rewrite Hdv.
    destruct (decide (k ∈ mutated_keys (mutations w))) as [Hin | Hout].
    + rewrite (apply_mutations_stamped _ _ _ _ k Hrun (or_introl Hin) row Hrow).
      lia.
    + rewrite (apply_mutations_untouched _ _ _ _ k Hrun Hout) in Hrow.
      cbn [kv] in Hrow. specialize (Hb k row Hrow). lia.
Qed.

(** X10.  The order of the checks cannot be observed, and the enqueues are
    not read: two writes with the same mutations whose checks are
    permutations of one another give the same result and the same
    database, whatever their enqueues. *)
Theorem atomic_write_checks_permuted (db : Db) (w1 w2 : AtomicWrite) :
  checks w1 ≡ₚ checks w2 ->
  mutations w1 = mutations w2 ->
  atomic_write v2vs db w1 = atomic_write v2vs db w2.
Proof.
  intros Hperm Hmut.
  assert (Hc : checks_hold v2vs db (checks w1)
               = checks_hold v2vs db (checks w2)).
  { destruct (checks_hold v2vs db (checks w1)) eqn:H1;
      destruct (checks_hold v2vs db (checks w2)) eqn:H2; try reflexivity.
    - apply checks_hold_Forall in H1. rewrite Hperm in H1.
      apply checks_hold_Forall in H1. congruence.
    - apply checks_hold_Forall in H2. rewrite <- Hperm in H2.
      apply checks_hold_Forall in H2. congruence. }
  unfold atomic_write. rewrite Hc, Hmut. reflexivity.
Qed.

(** X11.  When the checks pass but a numeric mutation is ill-typed, the
    call ends in a [TypeMismatch] error and the database is the one it was
    given: the mutations that ran before the ill-typed one are discarded
    and the counter is not advanced. *)
Theorem type_mismatch_rolls_back (db : Db) (w : AtomicWrite) :
  Forall (check_passes v2vs db) (checks w) ->
  well_typed (kinds_of db) (mutations w) = false ->
  exists name, atomic_write v2vs db w = (Err (TypeMismatch name), db).
Proof.
  intros Hc Hwt. apply atomic_write_rolls_back; [| exact Hwt].
  apply checks_hold_Forall, Hc.
Qed.

Lemma apply_mutations_app version ms1 :
  forall ms2 tx tx',
    apply_mutations version tx (ms1 ++ ms2) = Ok tx' ->
    exists tx1, apply_mutations version tx ms1 = Ok tx1 /\
                apply_mutations version tx1 ms2 = Ok tx'.
Proof.
  induction ms1 as [| m ms1 IH]; intros ms2 tx tx' H.
  - exists tx. split; [reflexivity | exact H].
  - rewrite <- app_comm_cons in H.
    apply apply_mutations_cons in H as (tx0 & H0 & H).
    apply IH in H as (tx1 & H1 & H2).
    exists tx1. split; [| exact H2].
    cbn [apply_mutations]. rewrite H0. exact H1.
Qed.

(** X12.  Mutations are applied in the order given and the last one on a key
    decides: when the last mutation of a committed write that names [k] is
    a [Set], the row of [k] holds that value under the new version; when it
    is a [Delete], [k] has no row. *)
Theorem last_mutation_wins (db db' : Db) (w : AtomicWrite) cr
    (ms ms' : list KvMutation) (k : list Byte.byte) (kind : MutationKind) :
  atomic_write v2vs db w = (Ok (Some cr), db') ->
  mutations w
  = ms ++ {| KvMutation_key := k; KvMutation_kind := kind |} :: ms' ->
  k ∉ mutated_keys ms' ->
  match kind with
  | MutationKind_Set value =>
      kv db' !! k
      = Some {| Row_v := value; Row_version := data_version db + 1 |}
  | MutationKind_Delete => kv db' !! k = None
  | _ => exists n,
      kv db' !! k
      = Some {| Row_v := Value_U64 n; Row_version := data_version db + 1 |}
  end.
Proof.
  intros Hw Hms Hk.
  apply atomic_write_committed in Hw as [_ Hrun]. rewrite Hms in Hrun.
  apply apply_mutations_app in Hrun as (tx1 & _ & Hrun).
  apply apply_mutations_cons in Hrun as (tx2 & Hm & Hrest).
  rewrite (apply_mutations_untouched _ _ _ _ k Hrest Hk).
  unfold apply_mutation in Hm. cbn [KvMutation_kind KvMutation_key] in Hm.
  destruct kind as [value | | operand | operand | operand].
  - injection Hm as <-. cbn [kv point_set]. apply lookup_insert_eq.
  - injection Hm as <-. cbn [kv point_delete]. apply lookup_delete_eq.
  - apply mutate_le64_inv in Hm as [n ->]. exists n. apply lookup_insert_eq.
  - apply mutate_le64_inv in Hm as [n ->]. exists n. apply lookup_insert_eq.
  - apply mutate_le64_inv in Hm as [n ->]. exists n. apply lookup_insert_eq.
Qed.

End AtomicWriteMoreFacts.

(** ** Numeric mutations *)

Section NumericFacts.
Import Sqlite.

Variable v2vs : Z -> Versionstamp.

Lemma rows_in_range_point_set tx k v version :
  rows_in_range tx -> value_in_range v ->
  rows_in_range (point_set tx k v version).
Proof.
  intros Htx Hv k' row. cbn [kv point_set].
  rewrite lookup_insert_Some. intros [[_ <-] | [_ Hrow]].
  - exact Hv.
  - apply (Htx k' row Hrow).
Qed.

Lemma rows_in_range_point_delete tx k :
  rows_in_range tx -> rows_in_range (point_delete tx k).
Proof.
  intros Htx k' row. cbn [kv point_delete].
  rewrite lookup_delete_Some. intros [_ Hrow]. apply (Htx k' row Hrow).
Qed.

Lemma mutate_le64_in_range tx key name operand version mutate tx' :
  rows_in_range tx -> value_in_range operand ->
  (forall a b, 0 <= a < 2 ^ 64 -> 0 <= b < 2 ^ 64 ->
               0 <= mutate a b < 2 ^ 64) ->
  mutate_le64 tx key name operand version mutate = Ok tx' ->
  rows_in_range tx'.
Proof.
  intros Htx Hop Hmut. unfold mutate_le64, point_get_value.
  destruct operand as [buf | buf | n]; try discriminate.
  destruct (kv tx !! key) as [[[buf | buf | old] ver] |] eqn:Hrow;
    cbn [fmap option_fmap option_map Row_v]; try discriminate;
    intros [= <-]; apply rows_in_range_point_set; try assumption.
  apply Hmut; [| exact Hop]. apply (Htx key _ Hrow).
Qed.

Lemma apply_mutation_in_range version tx m tx' :
  rows_in_range tx ->
  from_option value_in_range True (MutationKind_value (KvMutation_kind m)) ->
  apply_mutation version tx m = Ok tx' ->
  rows_in_range tx'.
Proof.
  intros Htx Hm. unfold apply_mutation.
  destruct (KvMutation_kind m) as [value | | operand | operand | operand];
    cbn [MutationKind_value from_option] in Hm.
  - intros [= <-]. now apply rows_in_range_point_set.
  - intros [= <-]. now apply rows_in_range_point_delete.
  - apply mutate_le64_in_range; try assumption.
    intros a b _ _. apply wrapping_add_range.
  - apply mutate_le64_in_range; try assumption.
    intros a b Ha Hb. unfold u64_min. lia.
  - apply mutate_le64_in_range; try assumption.
    intros a b Ha Hb. unfold u64_max. lia.
Qed.

Lemma apply_mutations_in_range version ms :
  forall tx tx',
    rows_in_range tx -> mutations_in_range ms ->
    apply_mutations version tx ms = Ok tx' ->
    rows_in_range tx'.
Proof.
  induction ms as [| m ms IH]; intros tx tx' Htx Hms Hrun.
  - injection Hrun as <-. exact Htx.
  - apply apply_mutations_cons in Hrun as (tx1 & H1 & Hrun).
    apply Forall_cons in Hms as [Hm Hms].
    eapply IH; [| exact Hms | exact Hrun].
    eapply apply_mutation_in_range; eassumption.
Qed.

(** X14.  Numeric rows stay within the unsigned 64-bit range: when every
    numeric row and every numeric value of the write is below 2^64, so is
    every numeric row after the call; a sum wraps instead of leaving the
    range. *)
Theorem atomic_write_rows_in_range (db : Db) (w : AtomicWrite) :
  rows_in_range db -> mutations_in_range (mutations w) ->
  rows_in_range (snd (atomic_write v2vs db w)).
Proof.
  intros Hdb Hms.
  destruct (atomic_write_cases v2vs db w) as [[-> _] | (db' & -> & Hrun)].
  - exact Hdb.
  - cbn [snd]. eapply apply_mutations_in_range; [| exact Hms | exact Hrun].
    exact Hdb.
Qed.

End NumericFacts.

Lemma one_row_db_lookup (k : list Byte.byte) (row : Sqlite.Row) :
  Sqlite.kv Sqlite.one_row_db !! k = Some row ->
  row = {| Sqlite.Row_v := Sqlite.Value_U64 7; Sqlite.Row_version := 3 |}.
Proof.
  unfold Sqlite.one_row_db. cbn [Sqlite.kv].
  rewrite lookup_singleton_Some. intros [_ <-]. reflexivity.
Defined.

Lemma atomic_write_versions_bounded_witness :
  Sqlite.data_version Sqlite.one_row_db
  <= Sqlite.data_version
       (snd (Sqlite.atomic_write Sqlite.version_to_versionstamp_be
               Sqlite.one_row_db Sqlite.overwrite_write)) /\
  Sqlite.versions_bounded
    (snd (Sqlite.atomic_write Sqlite.version_to_versionstamp_be
            Sqlite.one_row_db Sqlite.overwrite_write)).
Proof.
  apply (atomic_write_versions_bounded Sqlite.version_to_versionstamp_be
           Sqlite.one_row_db Sqlite.overwrite_write).
  intros k row Hrow. rewrite (one_row_db_lookup k row Hrow). simpl. lia.
Defined.

Lemma atomic_write_checks_permuted_witness :
  Sqlite.atomic_write Sqlite.version_to_versionstamp_be Sqlite.one_row_db
    Sqlite.checked_write
  = Sqlite.atomic_write Sqlite.version_to_versionstamp_be Sqlite.one_row_db
      Sqlite.checked_write_swapped.
Proof.
  apply (atomic_write_checks_permuted Sqlite.version_to_versionstamp_be
           Sqlite.one_row_db Sqlite.checked_write
           Sqlite.checked_write_swapped).
  - apply perm_swap.
  - reflexivity.
Defined.

Lemma type_mismatch_rolls_back_witness :
  exists name,
    Sqlite.atomic_write Sqlite.version_to_versionstamp_be Sqlite.empty_db
      Sqlite.mismatch_write
    = (Err (TypeMismatch name), Sqlite.empty_db).
Proof.
  apply (type_mismatch_rolls_back Sqlite.version_to_versionstamp_be
           Sqlite.empty_db Sqlite.mismatch_write).
  - constructor.
  - reflexivity.
Defined.

Lemma last_mutation_wins_witness :
  Sqlite.kv
    (snd (Sqlite.atomic_write Sqlite.version_to_versionstamp_be
            Sqlite.one_row_db Sqlite.overwrite_write)) !! [Byte.x61]
  = Some {| Sqlite.Row_v := Sqlite.Value_U64 2; Sqlite.Row_version := 4 |} /\
  Sqlite.kv
    (snd (Sqlite.atomic_write Sqlite.version_to_versionstamp_be
            Sqlite.one_row_db Sqlite.overwrite_write)) !! [Byte.x6e]
  = None.
Proof.
  split.
  - apply (last_mutation_wins Sqlite.version_to_versionstamp_be
             Sqlite.one_row_db _ Sqlite.overwrite_write
             {| Sqlite.versionstamp := Sqlite.version_to_versionstamp_be 4 |}
             (take 1 (Sqlite.mutations Sqlite.overwrite_write))
             (drop 2 (Sqlite.mutations Sqlite.overwrite_write))
             [Byte.x61] (Sqlite.MutationKind_Set (Sqlite.Value_U64 2))).
    + vm_compute. reflexivity.
    + reflexivity.
    + simpl. rewrite !not_elem_of_cons. repeat split; try discriminate.
      apply not_elem_of_nil.
  - apply (last_mutation_wins Sqlite.version_to_versionstamp_be
             Sqlite.one_row_db _ Sqlite.overwrite_write
             {| Sqlite.versionstamp := Sqlite.version_to_versionstamp_be 4 |}
             (take 2 (Sqlite.mutations Sqlite.overwrite_write))
             (drop 3 (Sqlite.mutations Sqlite.overwrite_write))
             [Byte.x6e] Sqlite.MutationKind_Delete).
    + vm_compute. reflexivity.
    + reflexivity.
    + simpl. rewrite !not_elem_of_cons. repeat split; try discriminate.
      apply not_elem_of_nil.
Defined.

Lemma atomic_write_rows_in_range_witness :
  Sqlite.rows_in_range
    (snd (Sqlite.atomic_write Sqlite.version_to_versionstamp_be
            Sqlite.one_row_db
            (Sqlite.sum_write [Byte.x6e] 18446744073709551615))).
Proof.
  apply (atomic_write_rows_in_range Sqlite.version_to_versionstamp_be
           Sqlite.one_row_db
           (Sqlite.sum_write [Byte.x6e] 18446744073709551615)).
  - intros k row Hrow. rewrite (one_row_db_lookup k row Hrow). simpl. lia.
  - repeat constructor; simpl; lia.
Defined.

(** * More on the polyfill *)

Section PolyfillMoreFacts.
Import Polyfill.

Variable serialize : JsValue -> outcome (list Byte.byte).
Variable JSON_parse : string -> outcome JsValue.

(** X15.  The numeric shortcuts are the mutations they stand for: on every
    operation, [sum], [min] and [max] return, or throw, exactly what
    [mutate] does when given the single mutation of that type, the number
    wrapped in a [KvU64].  [delete] and [mutate] with a delete mutation
    both throw on an undefined list and both queue one delete tuple for
    the key on a defined one, but not the same tuple: [delete] queues
    [null] as its value, [mutate] queues [undefined]. *)
Theorem shortcuts_are_mutations (self : AtomicOperation) (key : KvKey)
    (n : Z) :
  AtomicOperation_sum serialize self key n
  = AtomicOperation_mutate serialize self
      [ {| KvMutation_key := key; KvMutation_type := "sum";
           KvMutation_value := Some (JsKvU64 n) |} ] /\
  AtomicOperation_min serialize self key n
  = AtomicOperation_mutate serialize self
      [ {| KvMutation_key := key; KvMutation_type := "min";
           KvMutation_value := Some (JsKvU64 n) |} ] /\
  AtomicOperation_max serialize self key n
  = AtomicOperation_mutate serialize self
      [ {| KvMutation_key := key; KvMutation_type := "max";
           KvMutation_value := Some (JsKvU64 n) |} ] /\
  match AtomicOperation_mutations self with
  | None =>
      AtomicOperation_delete self key = Throw undefined_push /\
      AtomicOperation_mutate serialize self
        [ {| KvMutation_key := key; KvMutation_type := "delete";
             KvMutation_value := None |} ]
      = Throw undefined_push
  | Some l =>
      AtomicOperation_delete self key
      = Ret (with_mutations self
               (l ++ [(key, "delete"%string, Queued_null)])) /\
      AtomicOperation_mutate serialize self
        [ {| KvMutation_key := key; KvMutation_type := "delete";
             KvMutation_value := None |} ]
      = Ret (with_mutations self
               (l ++ [(key, "delete"%string, Queued_undefined)]))
  end.
Proof.
  unfold AtomicOperation_sum, AtomicOperation_min, AtomicOperation_max,
    AtomicOperation_delete, push_numeric.
  destruct self as [db checks [l |]]; repeat split; reflexivity.
Qed.

Lemma Promise_all_Ret {A : Type} (promises : list (outcome A)) :
  forall values,
    Promise_all promises = Ret values ->
    promises = map Ret values.
Proof.
  induction promises as [| p promises IH]; intros values H; simpl in H.
  - injection H as <-. reflexivity.
  - destruct p as [a | e]; [| discriminate].
    destruct (Promise_all promises) as [l | e]; [| discriminate].
    injection H as <-. simpl. f_equal. apply IH. reflexivity.
Qed.

Lemma Kv_get_Ret (self : Kv) (key : KvKey) (entry : KvEntryMaybe) :
  Kv_get JSON_parse self key = Ret entry ->
  KvEntryMaybe_key entry = key /\
  exists row,
    Database_get (Kv_db self) key = Some row /\
    KvEntryMaybe_versionstamp entry = SqlRow_versionstamp row.
Proof.
  unfold Kv_get. destruct (Database_get (Kv_db self) key) as [row |];
    [| discriminate].
  destruct (match SqlRow_value row with
            | Some value =>
                if negb (String.eqb value EmptyString) then JSON_parse value
                else Ret JsNull
            | None => Ret JsNull
            end) as [value | e]; [| discriminate].
  intros [= <-]. split; [reflexivity |]. exists row. split; reflexivity.
Qed.

(** X16.  When [Kv.getMany] is fulfilled, its entries are those of the
    requested keys, one per key and in the same order, and every requested
    key has a row in the table: no entry stands for a missing key. *)
Theorem Kv_getMany_fulfilled (self : Kv) (keys : list KvKey)
    (entries : list KvEntryMaybe) :
  Kv_getMany JSON_parse self keys = Ret entries ->
  map KvEntryMaybe_key entries = keys /\
  Forall (fun key => is_Some (Database_get (Kv_db self) key)) keys.
Proof.
  unfold Kv_getMany. intros H. apply Promise_all_Ret in H.
  revert entries H. induction keys as [| key keys IH];
    intros [| entry entries] H; simpl in H; try discriminate.
  - split; [reflexivity | constructor].
  - injection H as Hget H. apply IH in H as [Hkeys Hrows].
    apply Kv_get_Ret in Hget as [Hkey (row & Hrow & _)].
    split.
    + simpl. now rewrite Hkey, Hkeys.
    + constructor; [| exact Hrows]. rewrite Hrow. eexists. reflexivity.
Qed.

(** X17.  The constructor rejects a selector exactly when it has all three
    of [prefix], [start] and [end], or has no [prefix] and lacks [start] or
    [end]; it then throws a TypeError.  Otherwise it returns an iterator
    that holds the selector as given, has yielded nothing and is not
    done. *)
Theorem new_KvListIterator_selector (o : ListOptions) :
  (throws_TypeError (new_KvListIterator o) <->
   match selector_prefix (opt_selector o), selector_start (opt_selector o),
         selector_end (opt_selector o) with
   | Some _, Some _, Some _ => True
   | Some _, _, _ => False
   | None, Some _, Some _ => False
   | None, _, _ => True
   end) /\
  (forall self,
     new_KvListIterator o = Ret self ->
     it_selector self = opt_selector o /\ it_count self = 0 /\
     it_done self = false /\ it_entries self = None /\
     it_limit self = opt_limit o).
Proof.
  unfold new_KvListIterator, check_selector, throws_TypeError.
  destruct o as [limit [[p |] [s |] [e |]] cursor reverse batchSize c];
    cbn; (split; [split |]);
    try (intros [msg Hm]; discriminate Hm);
    try (intros _; eexists; reflexivity);
    try contradiction;
    try (intros self [= <-]; repeat split; reflexivity);
    try (intros self Hs; discriminate Hs).
Qed.

End PolyfillMoreFacts.

(** * More on the list iterator *)

Section IteratorMoreFacts.
Import Polyfill.

Variable encodeCursor :
  option KvKey * option KvKey * option KvKey -> KvKey -> outcome string.
Variable pullBatch :
  nat -> KvListSelector -> option string -> bool -> KvConsistencyLevel ->
  outcome (list KvEntry).

Lemma fill_buffer_step scans self filled scans1 :
  fill_buffer encodeCursor pullBatch scans self = (filled, scans1) ->
  (scans1 = scans \/ scans1 = S scans) /\
  (it_lastBatch self = true -> scans1 = scans) /\
  forall self1, filled = Ret self1 ->
    it_limit self1 = it_limit self /\ it_count self1 = it_count self /\
    (it_lastBatch self = true -> it_lastBatch self1 = true).
Proof.
  unfold fill_buffer.
  destruct (buffer_empty self && negb (it_lastBatch self)) eqn:Hfill.
  - assert (Hlb : it_lastBatch self = false).
    { apply andb_true_iff in Hfill as [_ H]. now apply negb_true_iff in H. }
    destruct (match it_cursorGen self with
              | Some g => run_cursorGen encodeCursor (it_selector self) g
                          ≫= fun c => Ret (Some c)
              | None => Ret None
              end) as [cursor | e].
    + destruct (pullBatch scans (it_selector self) cursor (it_reverse self)
                  (it_consistency self)) as [batch | e];
        intros [= <- <-]; (split; [right; reflexivity |]);
        (split; [congruence |]); intros self1 [= <-].
      repeat split. congruence.
    + intros [= <- <-]. split; [left; reflexivity |].
      split; [reflexivity |]. intros self1 H. discriminate H.
  - intros [= <- <-]. split; [left; reflexivity |].
    split; [reflexivity |]. intros self1 [= <-]. repeat split. tauto.
Qed.

(** One call of [next]: the limit is kept, at most one scan is made and none
    once a short batch has been seen, and the count moves by one exactly
    when an entry is yielded. *)
Lemma next_step scans self r self' scans' :
  KvListIterator_next encodeCursor pullBatch scans self = (r, self', scans') ->
  it_limit self' = it_limit self /\
  (scans' = scans \/ scans' = S scans) /\
  (it_lastBatch self = true -> it_lastBatch self' = true /\ scans' = scans) /\
  match r with
  | Ret (IterValue _) =>
      finished self = false /\ it_count self' = it_count self + 1
  | _ => it_count self' = it_count self
  end.
Proof.
  unfold KvListIterator_next.
  destruct (finished self) eqn:Hfin.
  - intros [= <- <- <-]. repeat split; auto.
  - destruct (fill_buffer encodeCursor pullBatch scans self)
      as [filled scans1] eqn:Hfill.
    apply fill_buffer_step in Hfill as (Hs & Hlb & Hfilled).
    destruct filled as [self1 | e].
    + destruct (Hfilled self1 eq_refl) as (Hlim & Hcnt & Hlb1).
      destruct (it_entries self1) as [entries |].
      * destruct (pop entries) as [[entry |] rest]; intros [= <- <- <-];
          cbn [it_limit it_count it_lastBatch set_yielded set_done];
          repeat split; auto; lia.
      * intros [= <- <- <-].
        cbn [it_limit it_count it_lastBatch set_yielded set_done].
        repeat split; auto.
    + intros [= <- <- <-]. repeat split; auto.
Qed.

Lemma next_times_S n scans self :
  next_times encodeCursor pullBatch (S n) scans self
  = let '(r, self1, scans1) :=
      KvListIterator_next encodeCursor pullBatch scans self in
    let '(rs, self2, scans2) :=
      next_times encodeCursor pullBatch n scans1 self1 in
    (r :: rs, self2, scans2).
Proof. reflexivity. Qed.

(** X18.  [limit] bounds the entries yielded over any number of calls,
    whatever the batch size and whatever the scans return: an iterator
    that has counted [it_count] entries yields at most [limit - it_count]
    more, and none when the count has reached the limit. *)
Theorem limit_bounds_yields (n : nat) :
  forall scans self limit,
    it_limit self = Some limit ->
    Z.of_nat (length (yielded
      (fst (fst (next_times encodeCursor pullBatch n scans self)))))
    <= Z.max 0 (limit - it_count self).
Proof.
  induction n as [| n IH]; intros scans self limit Hlimit.
  - simpl. lia.
  - rewrite next_times_S.
    destruct (KvListIterator_next encodeCursor pullBatch scans self)
      as [[r self1] scans1] eqn:Hnext.
    apply next_step in Hnext as (Hlim & _ & _ & Hcount).
    rewrite Hlimit in Hlim. specialize (IH scans1 self1 limit Hlim).
    destruct (next_times encodeCursor pullBatch n scans1 self1)
      as [[rs self2] scans2].
    cbn [fst] in *. unfold yielded in *. cbn [flat_map].
    rewrite length_app.
    destruct r as [[| entry] | e]; cbn [length]; try lia.
    destruct Hcount as [Hfin Hcount].
    unfold finished, limit_reached in Hfin. rewrite Hlimit in Hfin.
    apply orb_false_iff in Hfin as [_ Hfin].
    rewrite Z.geb_leb in Hfin. apply Z.leb_gt in Hfin. lia.
Qed.

(** X19.  A call of [next] makes at most one scan, and once a batch shorter
    than [batchSize] has been seen no call makes a scan any more, although
    the entries left in the buffer are still yielded. *)
Theorem scans_are_bounded (n : nat) :
  forall scans self,
    (scans <= snd (next_times encodeCursor pullBatch n scans self)
     <= scans + n)%nat /\
    (it_lastBatch self = true ->
     snd (next_times encodeCursor pullBatch n scans self) = scans).
Proof.
  induction n as [| n IH]; intros scans self.
  - simpl. split; [lia | reflexivity].
  - rewrite next_times_S.
    destruct (KvListIterator_next encodeCursor pullBatch scans self)
      as [[r self1] scans1] eqn:Hnext.
    apply next_step in Hnext as (_ & Hs & Hlb & _).
    destruct (IH scans1 self1) as [Hrange Hlast].
    destruct (next_times encodeCursor pullBatch n scans1 self1)
      as [[rs self2] scans2].
    cbn [snd] in *. split.
    + destruct Hs as [-> | ->]; lia.
    + intros Hl. destruct (Hlb Hl) as [Hl1 ->]. apply Hlast, Hl1.
Qed.

End IteratorMoreFacts.

Section IteratorBatchFacts.
Import Polyfill.

Variable encodeCursor :
  option KvKey * option KvKey * option KvKey -> KvKey -> outcome string.
Variable pullBatch :
  nat -> KvListSelector -> option string -> bool -> KvConsistencyLevel ->
  outcome (list KvEntry).

Lemma pop_rev_cons {A : Type} (x : A) (l : list A) :
  pop (rev (x :: l)) = (Some x, rev l).
Proof. unfold pop. now rewrite rev_involutive. Qed.

Lemma buffer_empty_rev_cons self entry batch :
  it_entries self = Some (rev (entry :: batch)) -> buffer_empty self = false.
Proof.
  unfold buffer_empty. intros ->. rewrite length_rev. reflexivity.
Qed.

(** What is in the buffer is yielded in the order of the scan, without any
    further scan. *)
Lemma buffered_in_order (batch : list KvEntry) :
  forall self scans,
    it_entries self = Some (rev batch) ->
    it_done self = false -> it_limit self = None ->
    exists self',
      next_times encodeCursor pullBatch (length batch) scans self
      = (map (fun entry => Ret (IterValue entry)) batch, self', scans) /\
      it_entries self' = Some [] /\ it_done self' = false.
Proof.
  induction batch as [| entry batch IH]; intros self scans Hbuf Hdone Hlim.
  - exists self. repeat split; assumption.
  - cbn [length]. rewrite next_times_S.
    unfold KvListIterator_next, finished, limit_reached, fill_buffer.
    rewrite Hdone, Hlim, (buffer_empty_rev_cons self entry batch Hbuf).
    cbn [orb andb]. rewrite Hbuf, pop_rev_cons.
    destruct (IH (set_yielded self (rev batch) entry) scans)
      as (self' & Hrun & Hrest); try reflexivity; try assumption.
    rewrite Hrun. exists self'. split; [reflexivity | exact Hrest].
Qed.

(** X20.  A batch is yielded in the order in which the scan returned it,
    although it is reversed and popped from the end: on an iterator that is
    not done, has an empty buffer, has not seen a short batch and has no
    limit, at any point of the iteration, as many calls of [next] as the
    batch has entries yield exactly these entries, in order, and make one
    scan, with the cursor the iterator stands at. *)
Theorem batch_yielded_in_order (self : KvListIterator) (scans : nat)
    (cursor : option string) (entry : KvEntry) (batch : list KvEntry) :
  it_done self = false -> it_limit self = None ->
  buffer_empty self = true -> it_lastBatch self = false ->
  cursor_argument encodeCursor self = Ret cursor ->
  pullBatch scans (it_selector self) cursor (it_reverse self)
    (it_consistency self) = Ret (entry :: batch) ->
  exists self',
    next_times encodeCursor pullBatch (length (entry :: batch)) scans self
    = (map (fun entry => Ret (IterValue entry)) (entry :: batch), self',
       S scans) /\
    it_entries self' = Some [] /\ it_done self' = false.
Proof.
  intros Hdone Hlim Hempty Hlast Hcur Hscan.
  cbn [length]. rewrite next_times_S.
  unfold KvListIterator_next, finished, limit_reached, fill_buffer.
  rewrite Hdone, Hlim, Hempty, Hlast. cbn [orb andb negb].
  unfold cursor_argument in Hcur. rewrite Hcur, Hscan.
  cbn [it_entries set_batch]. rewrite pop_rev_cons.
  destruct (buffered_in_order batch
              (set_yielded (set_batch self (entry :: batch)) (rev batch) entry)
              (S scans)) as (self' & Hrun & Hrest);
    try reflexivity; try assumption.
  rewrite Hrun. exists self'. split; [reflexivity | exact Hrest].
Qed.

(** X21.  A scan that fails is not the end of the iteration, at whatever
    point it happens: [next] rejects with the error of [pullBatch], the
    scan is counted, and the iterator is left exactly as it was, neither
    done nor advanced; the next call scans again with the same cursor and,
    when that scan returns rows, yields the first of them. *)
Theorem failed_scan_leaves_iterator (self : KvListIterator) (scans : nat)
    (cursor : option string) (e : js_error) :
  finished self = false ->
  buffer_empty self = true -> it_lastBatch self = false ->
  cursor_argument encodeCursor self = Ret cursor ->
  pullBatch scans (it_selector self) cursor (it_reverse self)
    (it_consistency self) = Throw e ->
  KvListIterator_next encodeCursor pullBatch scans self
  = (Throw e, self, S scans) /\
  forall entry batch,
    pullBatch (S scans) (it_selector self) cursor (it_reverse self)
      (it_consistency self) = Ret (entry :: batch) ->
    exists self',
      KvListIterator_next encodeCursor pullBatch (S scans) self
      = (Ret (IterValue entry), self', S (S scans)).
Proof.
  intros Hfin Hempty Hlast Hcur Hscan.
  unfold cursor_argument in Hcur. split.
  - unfold KvListIterator_next, fill_buffer.
    rewrite Hfin, Hempty, Hlast. cbn [andb negb].
    rewrite Hcur, Hscan. reflexivity.
  - intros entry batch Hretry.
    unfold KvListIterator_next, fill_buffer.
    rewrite Hfin, Hempty, Hlast. cbn [andb negb].
    rewrite Hcur, Hretry. cbn [it_entries set_batch].
    rewrite pop_rev_cons. eexists. reflexivity.
Qed.

End IteratorBatchFacts.

(** * Serialization of values *)

Section SerializeFacts.
Import Polyfill.

Variable serialize : JsValue -> outcome (list Byte.byte).
Variable deserialize : list Byte.byte -> outcome JsValue.
Variable new_KvU64 : JsValue -> JsValue.

Ltac split_discriminee :=
  match goal with
  | |- context [match ?x with _ => _ end] => is_var x; destruct x
  end.

(** The [switch] of [serializeValue] on an object, by the name of its
    constructor. *)
Lemma serializeValue_object (name : string) (id : N) :
  serializeValue serialize (JsObject (Some name) id)
  = if String.eqb name "Uint8Array"
    then Ret (RawValue_bytes (JsObject (Some name) id))
    else if String.eqb name "KvU64"
         then Ret (RawValue_u64 JsUndefined)
         else serialize (JsObject (Some name) id)
              ≫= fun v => Ret (RawValue_v8 v).
Proof.
  unfold serializeValue. cbn [constructor_name mbind outcome_bind].
  repeat (first [reflexivity | split_discriminee; cbn]).
Qed.

(** X23.  [deserializeValue] undoes [serializeValue]: a [Uint8Array] and a
    [KvU64] come back as they were without the serializer being involved,
    and any other value comes back whenever [deserialize] undoes
    [serialize] on it. *)
Theorem deserializeValue_serializeValue (value : JsValue) (raw : RawValue) :
  (forall n, new_KvU64 (JsBigint n) = JsKvU64 n) ->
  (forall buffer, serialize value = Ret buffer ->
                  deserialize buffer = Ret value) ->
  (forall id, value <> JsObject (Some "KvU64"%string) id) ->
  serializeValue serialize value = Ret raw ->
  deserializeValue deserialize new_KvU64 raw = Ret value.
Proof.
  intros Hnew Hv8 Hfake.
  assert (Hdefault :
    (serialize value ≫= fun v => Ret (RawValue_v8 v)) = Ret raw ->
    deserializeValue deserialize new_KvU64 raw = Ret value).
  { destruct (serialize value) as [buffer |] eqn:Hs; [| discriminate].
    intros [= <-]. apply Hv8. reflexivity. }
  destruct value as [| | b | s | n | b | n | [name |] id];
    try exact Hdefault.
  - intros [= <-]. reflexivity.
  - intros [= <-]. cbn. now rewrite Hnew.
  - rewrite serializeValue_object.
    destruct (String.eqb_spec name "Uint8Array") as [-> | _].
    + intros [= <-]. reflexivity.
    + destruct (String.eqb_spec name "KvU64") as [-> | _].
      * exfalso. apply (Hfake id). reflexivity.
      * exact Hdefault.
  - discriminate.
Qed.

End SerializeFacts.

Lemma deserializeValue_serializeValue_witness :
  Polyfill.deserializeValue Polyfill.string_deserialize
    Polyfill.sample_new_KvU64
    (Polyfill.RawValue_v8 [Byte.x68; Byte.x69])
  = Ret (Polyfill.JsString "hi") /\
  Polyfill.deserializeValue Polyfill.string_deserialize
    Polyfill.sample_new_KvU64
    (Polyfill.RawValue_u64 (Polyfill.JsBigint 7))
  = Ret (Polyfill.JsKvU64 7).
Proof.
  split.
  - apply (deserializeValue_serializeValue Polyfill.string_serialize
             Polyfill.string_deserialize Polyfill.sample_new_KvU64
             (Polyfill.JsString "hi")).
    + reflexivity.
    + intros buffer [= <-]. reflexivity.
    + discriminate.
    + reflexivity.
  - apply (deserializeValue_serializeValue Polyfill.string_serialize
             Polyfill.string_deserialize Polyfill.sample_new_KvU64
             (Polyfill.JsKvU64 7)).
    + reflexivity.
    + discriminate.
    + discriminate.
    + reflexivity.
Defined.

(** * [withGlobal] *)

Section WithGlobalFacts.
Import Polyfill WithGlobal.

Lemma backup_of_lookup (window variables : gmap string JsValue)
    (name : string) :
  backup_of window variables !! name
  = match variables !! name with
    | Some _ => Some (window_get window name)
    | None => None
    end.
Proof.
  unfold backup_of. rewrite map_lookup_imap.
  destruct (variables !! name); reflexivity.
Qed.

(** Putting the backups back: a name of [variables] gets the value the
    global object had for it at entry, [undefined] if it had none; the
    other names are not touched. *)
Lemma restore_lookup (window later variables : gmap string JsValue)
    (name : string) :
  assign_all later (backup_of window variables) !! name
  = match variables !! name with
    | Some _ => Some (window_get window name)
    | None => later !! name
    end.
Proof.
  unfold assign_all. rewrite lookup_union, backup_of_lookup.
  destruct (variables !! name); destruct (later !! name); reflexivity.
Qed.

(** X24.  When the callback returns a value that is not a thenable, or
    throws, [withGlobal] hands on that value or exception, and on return
    every global named in [variables] is back to what it was at entry,
    also when the callback changed it; a global that did not exist at
    entry is left defined, holding [undefined].  Globals not named in
    [variables] are as the callback left them, and the callback was run
    with every variable installed. *)
Theorem withGlobal_restores (window variables : gmap string JsValue)
    (callback : gmap string JsValue ->
                outcome ReturnValue * gmap string JsValue) :
  (forall promise,
     fst (callback (assign_all window variables)) <> Ret (Thenable promise)) ->
  returned (withGlobal window variables callback)
  = fst (callback (assign_all window variables)) /\
  pending_cleanup (withGlobal window variables callback) = None /\
  (forall name value,
     variables !! name = Some value ->
     assign_all window variables !! name = Some value /\
     window_after (withGlobal window variables callback) !! name
     = Some (window_get window name)) /\
  (forall name,
     variables !! name = None ->
     window_after (withGlobal window variables callback) !! name
     = snd (callback (assign_all window variables)) !! name).
Proof.
  intros Hsync. unfold withGlobal.
  destruct (callback (assign_all window variables)) as [r after] eqn:Hcb.
  cbn [fst snd] in *.
  assert (Hout :
    match r with
    | Ret (Thenable promise) =>
        {| returned := r; window_after := after;
           pending_cleanup := Some (backup_of window variables) |}
    | _ =>
        {| returned := r;
           window_after := assign_all after (backup_of window variables);
           pending_cleanup := None |}
    end
    = {| returned := r;
         window_after := assign_all after (backup_of window variables);
         pending_cleanup := None |}).
  { destruct r as [[value | promise] | e]; try reflexivity.
    exfalso. apply (Hsync promise). reflexivity. }
  rewrite Hout. cbn [returned pending_cleanup window_after].
  split; [reflexivity |]. split; [reflexivity |]. split.
  - intros name value Hname. split.
    + unfold assign_all. now apply lookup_union_Some_l.
    + rewrite restore_lookup, Hname. reflexivity.
  - intros name Hname. rewrite restore_lookup, Hname. reflexivity.
Qed.

(** X25.  When the callback returns a thenable, [withGlobal] returns it with
    the globals still installed, and the cleanup it registers on the
    thenable puts back, whenever it runs and whatever the global object has
    become by then, the values saved at entry. *)
Theorem withGlobal_defers_cleanup (window variables : gmap string JsValue)
    (callback : gmap string JsValue ->
                outcome ReturnValue * gmap string JsValue)
    (promise : N) :
  fst (callback (assign_all window variables)) = Ret (Thenable promise) ->
  returned (withGlobal window variables callback) = Ret (Thenable promise) /\
  window_after (withGlobal window variables callback)
  = snd (callback (assign_all window variables)) /\
  exists backups,
    pending_cleanup (withGlobal window variables callback) = Some backups /\
    forall (later : gmap string JsValue) name,
      cleanup later backups !! name
      = match variables !! name with
        | Some _ => Some (window_get window name)
        | None => later !! name
        end.
Proof.
  intros Hasync. unfold withGlobal.
  destruct (callback (assign_all window variables)) as [r after].
  cbn [fst snd] in *. subst r. cbn [returned pending_cleanup window_after].
  split; [reflexivity |]. split; [reflexivity |].
  exists (backup_of window variables). split; [reflexivity |].
  intros later name. apply restore_lookup.
Qed.

End WithGlobalFacts.

Lemma withGlobal_restores_witness :
  WithGlobal.returned
    (WithGlobal.withGlobal WithGlobal.sample_window
       WithGlobal.sample_variables WithGlobal.clobbering_callback)
  = Throw (Error "boom") /\
  WithGlobal.window_after
    (WithGlobal.withGlobal WithGlobal.sample_window
       WithGlobal.sample_variables WithGlobal.clobbering_callback)
    !! "Deno"%string
  = Some (Polyfill.JsString "host") /\
  WithGlobal.window_after
    (WithGlobal.withGlobal WithGlobal.sample_window
       WithGlobal.sample_variables WithGlobal.clobbering_callback)
    !! "__bootstrap"%string
  = Some Polyfill.JsUndefined.
Proof.
  destruct (withGlobal_restores WithGlobal.sample_window
              WithGlobal.sample_variables WithGlobal.clobbering_callback)
    as (Hret & _ & Hvars & _).
  - intros promise. discriminate.
  - split; [exact Hret |]. split.
    + apply (Hvars "Deno"%string (Polyfill.JsString "shim")). reflexivity.
    + apply (Hvars "__bootstrap"%string (Polyfill.JsBoolean true)).
      reflexivity.
Defined.

Lemma withGlobal_defers_cleanup_witness :
  WithGlobal.window_after
    (WithGlobal.withGlobal WithGlobal.sample_window
       WithGlobal.sample_variables WithGlobal.async_callback)
    !! "Deno"%string
  = Some (Polyfill.JsString "shim") /\
  exists backups,
    WithGlobal.pending_cleanup
      (WithGlobal.withGlobal WithGlobal.sample_window
         WithGlobal.sample_variables WithGlobal.async_callback)
    = Some backups /\
    WithGlobal.cleanup ∅ backups !! "Deno"%string
    = Some (Polyfill.JsString "host").
Proof.
  destruct (withGlobal_defers_cleanup WithGlobal.sample_window
              WithGlobal.sample_variables WithGlobal.async_callback 1)
    as (_ & Hafter & backups & Hpending & Hclean).
  - reflexivity.
  - split.
    + rewrite Hafter. reflexivity.
    + exists backups. split; [exact Hpending |].
      rewrite Hclean. reflexivity.
Defined.

Lemma Kv_getMany_fulfilled_witness :
  map Polyfill.KvEntryMaybe_key
    [ {| Polyfill.KvEntryMaybe_key := [Polyfill.KvKeyPart_string "a"];
         Polyfill.KvEntryMaybe_value := Polyfill.JsString "1";
         Polyfill.KvEntryMaybe_versionstamp := Some "v1"%string |} ]
  = [[Polyfill.KvKeyPart_string "a"]] /\
  Forall (fun key => is_Some (Polyfill.Database_get Polyfill.one_row_table key))
    [[Polyfill.KvKeyPart_string "a"]].
Proof.
  apply (Kv_getMany_fulfilled Polyfill.sample_JSON_parse
           {| Polyfill.Kv_db := Polyfill.one_row_table |}
           [[Polyfill.KvKeyPart_string "a"]]).
  reflexivity.
Defined.

Lemma limit_bounds_yields_witness :
  Z.of_nat (length (Polyfill.yielded
    (fst (fst (Polyfill.next_times Polyfill.sample_encodeCursor
                 (Polyfill.scan_of Polyfill.sample_table 2) 6 0
                 Polyfill.limited_iterator)))))
  <= Z.max 0 (3 - Polyfill.it_count Polyfill.limited_iterator).
Proof.
  apply (limit_bounds_yields Polyfill.sample_encodeCursor
           (Polyfill.scan_of Polyfill.sample_table 2) 6 0
           Polyfill.limited_iterator 3).
  reflexivity.
Defined.

(** With the limit of three, the five rows give three entries and then
    done results. *)
Example limited_run :
  fst (fst (Polyfill.next_times Polyfill.sample_encodeCursor
              (Polyfill.scan_of Polyfill.sample_table 2) 5 0
              Polyfill.limited_iterator))
  = map (fun name => Ret (Polyfill.IterValue (Polyfill.entry_named name)))
      ["A"; "B"; "C"]%string
    ++ [Ret Polyfill.IterDone; Ret Polyfill.IterDone].
Proof. vm_compute. reflexivity. Qed.

(** The second batch of the sample iteration, scanned from the cursor that
    stands at ["B"]. *)
Lemma batch_yielded_in_order_witness :
  exists self',
    Polyfill.next_times Polyfill.sample_encodeCursor
      (Polyfill.scan_of Polyfill.sample_table 2) 2 1
      (fst (Polyfill.sample_after 2))
    = ([Ret (Polyfill.IterValue (Polyfill.entry_named "C"));
        Ret (Polyfill.IterValue (Polyfill.entry_named "D"))], self', 2%nat) /\
    Polyfill.it_entries self' = Some [] /\ Polyfill.it_done self' = false.
Proof.
  apply (batch_yielded_in_order Polyfill.sample_encodeCursor
           (Polyfill.scan_of Polyfill.sample_table 2)
           (fst (Polyfill.sample_after 2)) 1 (Some "B"%string)
           (Polyfill.entry_named "C") [Polyfill.entry_named "D"]);
    reflexivity.
Defined.

(** A scan that fails after two entries have been yielded. *)
Lemma failed_scan_leaves_iterator_witness :
  Polyfill.KvListIterator_next Polyfill.sample_encodeCursor
    Polyfill.failing_scan 1 (fst (Polyfill.sample_after 2))
  = (Throw (Error "SQLITE_BUSY"), fst (Polyfill.sample_after 2), 2%nat).
Proof.
  apply (failed_scan_leaves_iterator Polyfill.sample_encodeCursor
           Polyfill.failing_scan (fst (Polyfill.sample_after 2))
           1 (Some "B"%string) (Error "SQLITE_BUSY"));
    reflexivity.
Defined.

(** * Kinds of parts, and the cursor at the end of an iteration *)

Section KindFacts.
Import Codec.

(** X3.  The kind decides first: a part whose kind comes earlier in
    Bytes, String, Int, Float, False, True is below every part of a later
    kind, whatever the two values are. *)
Theorem tag_ordering_decides (a b : KeyPart) :
  tag_ordering a < tag_ordering b -> cmp a b = Lt.
Proof.
  destruct a, b; cbn [cmp tag_ordering]; intros Hlt;
    try reflexivity; lia.
Qed.

(** X4.  Apart from floats, [eq] is identity: two parts that are not floats
    are equal to [eq] only when they are the same part, so distinct byte
    strings, strings, integers and booleans never collide. *)
Theorem KeyPart_eq_identity (a b : KeyPart) :
  (forall f, a <> KeyPart_Float f) ->
  KeyPart_eq a b = true -> a = b.
Proof.
  unfold KeyPart_eq. intros Hfloat.
  destruct (cmp a b) eqn:Hcmp; try discriminate. intros _.
  destruct a, b; cbn [cmp tag_ordering] in Hcmp; try discriminate;
    try reflexivity.
  - apply bytes_cmp_eq in Hcmp. now subst.
  - apply bytes_cmp_eq in Hcmp. unfold as_bytes in Hcmp.
    apply (f_equal String.string_of_list_byte) in Hcmp.
    rewrite !String.string_of_list_byte_of_string in Hcmp. now subst.
  - apply Z.compare_eq in Hcmp. now subst.
  - exfalso. apply (Hfloat f). reflexivity.
Qed.

End KindFacts.

Lemma tag_ordering_decides_witness :
  Codec.cmp (Codec.KeyPart_Int 1000) (Codec.KeyPart_Float 0) = Lt.
Proof.
  apply (tag_ordering_decides (Codec.KeyPart_Int 1000) (Codec.KeyPart_Float 0)).
  reflexivity.
Defined.

Lemma KeyPart_eq_identity_witness :
  Codec.KeyPart_String "a" = Codec.KeyPart_String "a".
Proof.
  apply (KeyPart_eq_identity (Codec.KeyPart_String "a")
           (Codec.KeyPart_String "a")).
  - discriminate.
  - reflexivity.
Defined.

Section CursorEndFacts.
Import Polyfill.

Variable encodeCursor :
  option KvKey * option KvKey * option KvKey -> KvKey -> outcome string.
Variable pullBatch :
  nat -> KvListSelector -> option string -> bool -> KvConsistencyLevel ->
  outcome (list KvEntry).

(** X22.  How an iteration ends decides what the cursor is afterwards.  When
    [next] answers done because the limit was reached (or the iterator was
    done already), nothing changes, so the cursor still stands at the last
    entry yielded and can resume the listing; when it answers done because
    the rows ran out, the iterator becomes done and its cursor the empty
    string. *)
Theorem cursor_at_end (scans : nat) (self self' : KvListIterator)
    (scans' : nat) :
  KvListIterator_next encodeCursor pullBatch scans self
  = (Ret IterDone, self', scans') ->
  (finished self = true /\ self' = self /\ scans' = scans) \/
  (finished self = false /\ it_done self' = true /\
   KvListIterator_cursor encodeCursor self' = Ret EmptyString).
Proof.
  unfold KvListIterator_next.
  destruct (finished self) eqn:Hfin.
  - intros [= <- <-]. left. repeat split.
  - destruct (fill_buffer encodeCursor pullBatch scans self)
      as [[filled | e] scans1]; [| discriminate].
    destruct (it_entries filled) as [entries |].
    + destruct (pop entries) as [[entry |] rest]; [discriminate |].
      intros [= <- <-]. right. repeat split.
    + intros [= <- <-]. right. repeat split.
Qed.

End CursorEndFacts.

Lemma cursor_at_end_witness :
  (Polyfill.finished (fst (Polyfill.sample_after 5)) = true /\
   fst (Polyfill.sample_after 6) = fst (Polyfill.sample_after 5) /\
   snd (Polyfill.sample_after 6) = snd (Polyfill.sample_after 5)) \/
  (Polyfill.finished (fst (Polyfill.sample_after 5)) = false /\
   Polyfill.it_done (fst (Polyfill.sample_after 6)) = true /\
   Polyfill.KvListIterator_cursor Polyfill.sample_encodeCursor
     (fst (Polyfill.sample_after 6)) = Ret EmptyString).
Proof.
  apply (cursor_at_end Polyfill.sample_encodeCursor
           (Polyfill.scan_of Polyfill.sample_table 2)
           (snd (Polyfill.sample_after 5)) (fst (Polyfill.sample_after 5))
           (fst (Polyfill.sample_after 6)) (snd (Polyfill.sample_after 6))).
  vm_compute. reflexivity.
Defined.
